(** * xslack: a shallow embedding of [src/xslack/slack.py]

    The Python values the module handles (the JSON payloads wrapped in
    [AttrDict]) are modelled by [json]; Python dicts are ordered association
    lists updated the way [dict.__setitem__] does it (an existing key keeps
    its place, a new key is appended); exceptions are the constructors of
    [exn]; stateful code (the transport, the in-memory cache, the cache
    files) runs in a small state-and-exception monad [M].  Exceptions do not
    roll back the state, as in Python. *)

From Stdlib Require Import String Ascii ZArith List Bool Lia.
Import ListNotations.
Open Scope string_scope.
Open Scope list_scope.

(** ** Python values and exceptions *)

Set Warnings "-register-all".

Inductive json : Type :=
| JNull
| JBool (b : bool)
| JNum (z : Z)
| JStr (s : string)
| JArr (l : list json)
| JObj (o : list (string * json)).

(** The exceptions the code raises or lets through.  [ApiFailed] carries the
    [error] field of the response; [TransportError] is whatever the Slack
    [WebClient] raises; [PyException] a bare [Exception] (with a message, or with
    [PyExceptionWith] a payload); [OutOfFuel] marks the bound put on loops and
    recursion of the model. *)
Inductive exn : Type :=
| ApiFailed (e : json)
| AttributeError
| KeyError
| TypeError
| RecursionError
| JSONDecodeError
| ValueError
| IsADirectoryError
| NotADirectoryError
| FileNotFoundError
| TransportError (msg : string)
| PyException (msg : string)
| PyExceptionWith (arg : json)
| OutOfFuel.

(** Python truth value of a JSON value ([bool(x)]). *)
Definition truthy (j : json) : bool :=
  match j with
  | JNull => false
  | JBool b => b
  | JNum z => negb (Z.eqb z 0)
  | JStr s => negb (String.eqb s "")
  | JArr l => match l with [] => false | _ => true end
  | JObj o => match o with [] => false | _ => true end
  end.

(** Lookup in an association list (first binding wins). *)
Fixpoint assoc {A : Type} (k : string) (d : list (string * A)) : option A :=
  match d with
  | [] => None
  | (k', v) :: t => if String.eqb k k' then Some v else assoc k t
  end.

(** [d[k] = v] on a Python dict: an existing key keeps its position. *)
Fixpoint dict_set {A : Type} (d : list (string * A)) (k : string) (v : A)
  : list (string * A) :=
  match d with
  | [] => [(k, v)]
  | (k', v') :: t =>
      if String.eqb k k' then (k', v) :: t else (k', v') :: dict_set t k v
  end.

(** Attribute access on an [AttrDict]: [x.k] is the value at key [k];
    a missing key (or a value that is not a mapping) gives [None], i.e. an
    [AttributeError]. *)
Definition getattr (j : json) (k : string) : option json :=
  match j with
  | JObj o => assoc k o
  | _ => None
  end.

(** ** A state-and-exception monad *)

Definition M (S A : Type) : Type := S -> (exn + A) * S.

Definition ret {S A : Type} (a : A) : M S A := fun s => (inr a, s).
Definition raise {S A : Type} (e : exn) : M S A := fun s => (inl e, s).
Definition bind {S A B : Type} (m : M S A) (k : A -> M S B) : M S B :=
  fun s => match m s with
           | (inl e, s1) => (inl e, s1)
           | (inr a, s1) => k a s1
           end.

Notation "x <- m ;; k" := (bind m (fun x => k))
  (at level 61, m at next level, right associativity).

Definition get_attr {S : Type} (j : json) (k : string) : M S json :=
  match getattr j k with
  | Some v => ret v
  | None => raise AttributeError
  end.

(** ** [Client] *)

(** A [Client] wraps a Slack [WebClient]: the transport is a function of the
    number of calls made so far, of the method name and of the parameters
    sent, returning the [data] of the response or raising.  The state keeps
    that call count and the log of the requests sent. *)
Record client : Type := mkClient {
  transport : nat -> string -> option json -> list (string * json) -> exn + json;
  ncalls : nat;
  sent : list (string * option json * list (string * json))
}.

(** [{**params, **kwargs}] *)
Definition merge_params (params kwargs : list (string * json))
  : list (string * json) :=
  fold_left (fun acc kv => dict_set acc (fst kv) (snd kv)) kwargs
    (fold_left (fun acc kv => dict_set acc (fst kv) (snd kv)) params []).

(** The body of the [for] loop: a [bool] becomes [1] or [0]. *)
Definition bool_to_int (v : json) : json :=
  match v with
  | JBool b => JNum (if b then 1 else 0)%Z
  | _ => v
  end.

Definition union_params (params kwargs : list (string * json))
  : list (string * json) :=
  map (fun kv => (fst kv, bool_to_int (snd kv))) (merge_params params kwargs).

(** [Client.api_call(api_method, files=files, params=params, **kwargs)] *)
Definition client_api_call (api_method : string) (files : option json)
    (params kwargs : list (string * json)) : M client json :=
  fun c =>
    let up := union_params params kwargs in
    (transport c (ncalls c) api_method files up,
     mkClient (transport c) (S (ncalls c)) (sent c ++ [(api_method, files, up)])).

(** The client state after one transport call with the given request. *)
Definition after_call (c : client) (m : string) (files : option json)
    (params kwargs : list (string * json)) : client :=
  mkClient (transport c) (S (ncalls c)) (sent c ++ [(m, files, union_params params kwargs)]).

(** ** [CachedClient] *)

(** The file system, as far as the cache touches it: a path is a directory
    or a file whose content parses as JSON ([Some]) or not ([None]). *)
Inductive entry : Type :=
| EDir
| EFile (content : option json).

Inductive fsop : Type :=
| ReadFile (path : string)
| WriteFile (path : string).

Record cstate : Type := mkC {
  cc_client : client;
  cache_dir : string;
  cache : list (string * json);       (* self._cache *)
  fs : list (string * entry);
  fslog : list fsop
}.

Definition set_client (s : cstate) (c : client) : cstate :=
  mkC c (cache_dir s) (cache s) (fs s) (fslog s).
Definition set_cache (s : cstate) (m : list (string * json)) : cstate :=
  mkC (cc_client s) (cache_dir s) m (fs s) (fslog s).
Definition set_fs (s : cstate) (f : list (string * entry)) (op : fsop) : cstate :=
  mkC (cc_client s) (cache_dir s) (cache s) f (fslog s ++ [op]).
Definition log_op (s : cstate) (op : fsop) : cstate :=
  mkC (cc_client s) (cache_dir s) (cache s) (fs s) (fslog s ++ [op]).

(** [CachedClient.__init__]: [super().__init__] builds the transport, then
    the cache directory is recorded and the in-memory cache is empty.  The
    path is not inspected and nothing is created. *)
Definition cached_client_init (t : nat -> string -> option json ->
    list (string * json) -> exn + json) (dir : string)
    (files : list (string * entry)) : cstate :=
  mkC (mkClient t 0 []) dir [] files [].

(** [CachedClient._setup_cache_dir] (never called by the module). *)
Definition setup_cache_dir : M cstate unit :=
  fun s =>
    match assoc (cache_dir s) (fs s) with
    | Some EDir => (inl (PyException (cache_dir s ++ " is not a directory")), s)
    | _ => (inr tt, s)
    end.

(** Paths.  The file system table holds each path in the spelling the code
    builds it from [cache_dir] (no [.] or [..] components are resolved and
    there are no symbolic links); the root ["/"] and the working directory
    ["."] always exist, and every existing directory is writable. *)
Definition is_slash (c : ascii) : bool := Ascii.eqb c "/"%char.

Fixpoint drop_while (p : ascii -> bool) (l : list ascii) : list ascii :=
  match l with
  | [] => []
  | c :: t => if p c then drop_while p t else l
  end.

(** The directory a path names its file in ([os.path.dirname] without the
    trailing slashes): ["/"] for a file in the root, ["."] for a bare name. *)
Definition parent_dir (path : string) : string :=
  match rev (drop_while is_slash
               (drop_while (fun c => negb (is_slash c)) (rev (list_ascii_of_string path)))) with
  | [] => if String.prefix "/" path then "/" else "."
  | d => string_of_list_ascii d
  end.

(** The directories the system walks through to reach directory [d]: the
    prefix of [d] before each ["/"] that follows another character, then
    [d] itself. *)
Fixpoint dir_prefixes_aux (d acc : string) (prev_slash : bool) : list string :=
  match d with
  | EmptyString => [acc]
  | String c rest =>
      if is_slash c then
        (if prev_slash || String.eqb acc "" then [] else [acc]) ++
        dir_prefixes_aux rest (acc ++ String c EmptyString) true
      else dir_prefixes_aux rest (acc ++ String c EmptyString) false
  end.

Definition dir_prefixes (d : string) : list string := dir_prefixes_aux d "" false.

(** The error of reaching directory [d]: the first component on the way
    that is a plain file ([NotADirectoryError]) or is missing
    ([FileNotFoundError]). *)
Fixpoint first_bad_dir (ps : list string) (f : list (string * entry)) : option exn :=
  match ps with
  | [] => None
  | p :: t =>
      if String.eqb p "/" || String.eqb p "." then first_bad_dir t f else
      match assoc p f with
      | Some EDir => first_bad_dir t f
      | Some (EFile _) => Some NotADirectoryError
      | None => Some FileNotFoundError
      end
  end.

Definition dir_error (d : string) (f : list (string * entry)) : option exn :=
  first_bad_dir (dir_prefixes d) f.

(** The error [open(path, "w")] raises, if any: the path is a directory, or
    the directory it goes in cannot be reached. *)
Definition open_w_error (path : string) (f : list (string * entry)) : option exn :=
  match assoc path f with
  | Some EDir => Some IsADirectoryError
  | _ => dir_error (parent_dir path) f
  end.

(** [open(path, "w")] followed by [json.dump(ret, f)]. *)
Definition write_json (path : string) (v : json) : M cstate unit :=
  fun s =>
    match open_w_error path (fs s) with
    | Some e => (inl e, s)
    | None => (inr tt, set_fs s (dict_set (fs s) path (EFile (Some v))) (WriteFile path))
    end.

(** [dict(x)] on one item of an iterable: a two-item sequence (a list, a
    two-character string, a mapping with two keys) gives a key and a value.
    A key that is not a string ([[1, 2]]) is never reached by the attribute
    access the module does on responses: the model leaves that entry out
    ([None]); a list or mapping as key is unhashable. *)
Definition dict_item (e : json) : exn + option (string * json) :=
  match e with
  | JArr [k; v] =>
      match k with
      | JStr ks => inr (Some (ks, v))
      | JArr _ | JObj _ => inl TypeError
      | _ => inr None
      end
  | JArr _ => inl ValueError
  | JStr s =>
      match list_ascii_of_string s with
      | [a; b] => inr (Some (String a EmptyString, JStr (String b EmptyString)))
      | _ => inl ValueError
      end
  | JObj [(k1, _); (k2, _)] => inr (Some (k1, JStr k2))
  | JObj _ => inl ValueError
  | _ => inl TypeError
  end.

Fixpoint dict_of_items (l : list json) (acc : list (string * json))
  : exn + list (string * json) :=
  match l with
  | [] => inr acc
  | e :: t =>
      match dict_item e with
      | inl err => inl err
      | inr None => dict_of_items t acc
      | inr (Some (k, v)) => dict_of_items t (dict_set acc k v)
      end
  end.

(** [AttrDict(x)] ([dict(x)]) on what [json.load] returns: a mapping is
    copied, a list must hold key/value pairs, a string is a sequence of
    one-character items (only the empty one converts), a number, boolean or
    [null] is not iterable. *)
Definition attrdict_of (j : json) : exn + json :=
  match j with
  | JObj o => inr (JObj o)
  | JArr l =>
      match dict_of_items l [] with
      | inl e => inl e
      | inr o => inr (JObj o)
      end
  | JStr EmptyString => inr (JObj [])
  | JStr _ => inl ValueError
  | _ => inl TypeError
  end.

(** [_inner] of [with_cache]. *)
Definition with_cache_inner (path : string) (pred : M cstate json) : M cstate json :=
  fun s =>
    match assoc path (fs s) with
    | Some (EFile c) =>                 (* os.path.isfile(cache) *)
        let s1 := log_op s (ReadFile path) in
        match c with
        | Some j =>                     (* AttrDict(json.load(f)) *)
            match attrdict_of j with
            | inl e => (inl e, s1)
            | inr d => (inr d, s1)
            end
        | None => (inl JSONDecodeError, s1)
        end
    | _ =>
        (ret0 <- pred ;;
         ok <- get_attr ret0 "ok" ;;
         if truthy ok then (_ <- write_json path ret0 ;; ret ret0) else ret ret0) s
    end.

(** [CachedClient.with_cache(cache, pred)] *)
Definition with_cache (path : string) (pred : M cstate json) : M cstate json :=
  fun s =>
    match assoc path (cache s) with
    | Some v => (inr v, s)
    | None =>
        match with_cache_inner path pred s with
        | (inl e, s1) => (inl e, s1)
        | (inr v, s1) => (inr v, set_cache s1 (dict_set (cache s1) path v))
        end
    end.

(** [str.split(".")] *)
Fixpoint split_dot_aux (s : string) (cur : string) : list string :=
  match s with
  | EmptyString => [cur]
  | String c rest =>
      if Ascii.eqb c "."%char then cur :: split_dot_aux rest ""
      else split_dot_aux rest (cur ++ String c EmptyString)
  end.

Definition split_dot (s : string) : list string := split_dot_aux s "".

(** A string with no ["."] in it (one component of a method name). *)
Definition no_dot (s : string) : bool :=
  forallb (fun c => negb (Ascii.eqb c "."%char)) (list_ascii_of_string s).

(** The cache file of a method, if it is cached. *)
Definition cache_file (dir method : string) : option string :=
  let comp := split_dot method in
  if (2 <=? length comp)%nat && String.eqb (last comp "") "list"
  then Some (dir ++ "/" ++ hd "" comp ++ "-" ++ last comp "" ++ ".json")%string
  else None.

(** [super().api_call(method, ...)] run on the client inside the state. *)
Definition lift_client {A : Type} (m : M client A) : M cstate A :=
  fun s => let (r, c) := m (cc_client s) in (r, set_client s c).

(** Lines 81-95 of [CachedClient.api_call]: the response is resolved
    through [with_cache] for a cached method, by a plain call otherwise. *)
Definition resolve (method : string) (files : option json)
    (params kwargs : list (string * json)) : M cstate json :=
  fun s =>
    let pred := lift_client (client_api_call method files params kwargs) in
    match cache_file (cache_dir s) method with
    | Some path => with_cache path pred s
    | None => pred s
    end.

(** [if not resp.ok: raise ApiFailed(resp.error)] *)
Definition check_ok (resp : json) : M cstate json :=
  ok <- get_attr resp "ok" ;;
  if negb (truthy ok) then (err <- get_attr resp "error" ;; raise (ApiFailed err))
  else ret resp.

(** [CachedClient.api_call(method, ...)]; the keyword arguments of
    [Client.api_call] ([files], [params] and the others) are passed through. *)
Definition cached_api_call (method : string) (files : option json)
    (params kwargs : list (string * json)) : M cstate json :=
  resp <- resolve method files params kwargs ;;
  check_ok resp.

(** ** [Channels], [Channel.history_after], [ChannelHistory] *)

(** Hashable Python values, as dict keys: [True == 1] and [False == 0] are
    the same key; a JSON array reaches the code as a tuple (AttrDict turns
    sequences into tuples); a mapping is unhashable. *)
Inductive pykey : Type :=
| KNone
| KNum (z : Z)
| KStr (s : string)
| KTuple (l : list pykey).

Fixpoint pykey_of (j : json) : option pykey :=
  match j with
  | JNull => Some KNone
  | JBool b => Some (KNum (if b then 1 else 0)%Z)
  | JNum z => Some (KNum z)
  | JStr s => Some (KStr s)
  | JArr l =>
      let fix go (l : list json) : option (list pykey) :=
        match l with
        | [] => Some []
        | x :: t =>
            match pykey_of x, go t with
            | Some k, Some ks => Some (k :: ks)
            | _, _ => None
            end
        end in
      option_map KTuple (go l)
  | JObj _ => None
  end.

Fixpoint pykey_eqb (a b : pykey) : bool :=
  match a, b with
  | KNone, KNone => true
  | KNum x, KNum y => Z.eqb x y
  | KStr x, KStr y => String.eqb x y
  | KTuple xs, KTuple ys =>
      let fix go (xs ys : list pykey) : bool :=
        match xs, ys with
        | [], [] => true
        | x :: xt, y :: yt => pykey_eqb x y && go xt yt
        | _, _ => false
        end in
      go xs ys
  | _, _ => false
  end.

Fixpoint kassoc {A : Type} (k : pykey) (d : list (pykey * A)) : option A :=
  match d with
  | [] => None
  | (k', v) :: t => if pykey_eqb k k' then Some v else kassoc k t
  end.

Fixpoint kdict_set {A : Type} (d : list (pykey * A)) (k : pykey) (v : A)
  : list (pykey * A) :=
  match d with
  | [] => [(k, v)]
  | (k', v') :: t =>
      if pykey_eqb k k' then (k', v) :: t else (k', v') :: kdict_set t k v
  end.

(** A [Channels] collection: its members and [idxByName]. *)
Record channels : Type := mkChannels {
  ch_data : list json;
  idxByName : list (pykey * json)
}.

(** [Channels._createIndex]: [by_name[x.name] = x] for every member. *)
Fixpoint create_index (data : list json) (acc : list (pykey * json))
  : exn + list (pykey * json) :=
  match data with
  | [] => inr acc
  | x :: t =>
      match getattr x "name" with
      | None => inl AttributeError
      | Some n =>
          match pykey_of n with
          | None => inl TypeError
          | Some k => create_index t (kdict_set acc k x)
          end
      end
  end.

(** [Channels(client, data)] *)
Definition channels_init (data : list json) : exn + channels :=
  match create_index data [] with
  | inl e => inl e
  | inr idx => inr (mkChannels data idx)
  end.

(** [Channels.byName(name)]: the [Channel] wraps the indexed record. *)
Definition channels_byName (cs : channels) (name : string) : exn + json :=
  match kassoc (KStr name) (idxByName cs) with
  | Some x => inr x
  | None => inl KeyError
  end.

(** [Channel.history(...)] through [ChannelApi.history]:
    [api_call("channels.history", channel=self.id, **kwargs)]. *)
Definition channel_history (ch : json) (kwargs : list (string * json))
  : M client json :=
  id <- get_attr ch "id" ;;
  client_api_call "channels.history" None [] (("channel", id) :: kwargs).

Record channel_history_v : Type := mkHistory {
  hist_messages : list json;
  hist_has_more : json
}.

(** The [while has_more:] loop of [Channel.history_after]; [fuel] bounds the
    number of iterations (the Python loop has no bound). *)
Fixpoint history_after_loop (fuel : nat) (ch : json) (messages : list json)
    (next_ts has_more inclusive : json) : M client channel_history_v :=
  match fuel with
  | O => raise OutOfFuel
  | S f =>
      if negb (truthy has_more) then ret (mkHistory messages has_more) else
      resp <- channel_history ch
                [("oldest", next_ts); ("count", JNum 1000); ("inclusive", inclusive)] ;;
      has_more' <- get_attr resp "has_more" ;;
      ms <- get_attr resp "messages" ;;
      match ms with
      | JArr [] | JStr EmptyString | JObj [] =>
          history_after_loop f ch messages next_ts has_more' inclusive
      | JArr l =>
          let messages' := messages ++ rev l in
          ts <- get_attr (last messages' JNull) "ts" ;;
          history_after_loop f ch messages' ts has_more' (JBool false)
      | JStr _ | JObj _ =>
          (* reversed() yields characters or keys: [messages[-1].ts] fails *)
          raise AttributeError
      | _ => raise TypeError                (* len() of a scalar *)
      end
  end.

(** [Channel.history_after(ts, batch=False, inclusive=0)] *)
Definition history_after (fuel : nat) (ch ts inclusive : json)
  : M client channel_history_v :=
  history_after_loop fuel ch [] ts (JBool true) inclusive.

(** ** [Emojies] and [Emoji] *)

Record emoji : Type := mkEmoji {
  emoji_name : string;
  emoji_image : string;
  emoji_type : string;
  image_url : option string
}.

(** The characters matched by [.+] (no newline), greedily. *)
Fixpoint take_line (s : string) : string :=
  match s with
  | EmptyString => EmptyString
  | String c rest =>
      if Ascii.eqb c "010"%char then EmptyString else String c (take_line rest)
  end.

(** [re.match("alias:(.+)", image)[1]]; [None] is the failed match, whose
    subscript raises [TypeError]. *)
Definition alias_target (image : string) : option string :=
  if String.prefix "alias:" image then
    match take_line (substring 6 (String.length image - 6) image) with
    | EmptyString => None
    | t => Some t
    end
  else None.

(** [Emoji(parent, name, image)], with [parent] the [Emojies] mapping.
    [_init_alias] looks the target up with [parent.get], which builds the
    target [Emoji] through [Emojies.__getitem__] (an [Emoji] object is always
    truthy).  [fuel] stands for Python's recursion limit. *)
Fixpoint emoji_init (fuel : nat) (parent : list (string * string))
    (name image : string) : exn + emoji :=
  if negb (String.prefix "alias:" image) then
    inr (mkEmoji name image "image" (Some image))          (* _init_image *)
  else
    match alias_target image with
    | None => inl TypeError
    | Some alias_to_name =>
        match assoc alias_to_name parent with
        | None => inr (mkEmoji name image "alias" None)
        | Some img =>
            match fuel with
            | O => inl RecursionError
            | S f =>
                match emoji_init f parent alias_to_name img with
                | inl e => inl e
                | inr alias_to => inr (mkEmoji name image "alias" (image_url alias_to))
                end
            end
        end
    end.

(** [Emojies.__getitem__(key)]; an alias chain that does not loop is shorter
    than the mapping, so [length parent] bounds the recursion depth. *)
Definition emojies_getitem (parent : list (string * string)) (key : string)
  : exn + emoji :=
  match assoc key parent with
  | None => inl KeyError
  | Some image => emoji_init (length parent) parent key image
  end.

(** ** The API objects: [ChannelApi], [UserApi], [ChatApi], [Users] and the
    entity methods *)

Definition lift_exn {S A : Type} (r : exn + A) : M S A :=
  match r with
  | inl e => raise e
  | inr a => ret a
  end.

(** Iterating a value ([for x in v], [list(v)]): a tuple yields its items, a
    string its characters, a mapping its keys; a scalar is not iterable. *)
Definition py_iter (j : json) : exn + list json :=
  match j with
  | JArr l => inr l
  | JStr s => inr (map (fun c => JStr (String c EmptyString)) (list_ascii_of_string s))
  | JObj o => inr (map (fun kv => JStr (fst kv)) o)
  | _ => inl TypeError
  end.

(** [UserList(initlist)]: [None] gives an empty list, anything else
    [list(initlist)]. *)
Definition userlist_of (j : json) : exn + list json :=
  match j with
  | JNull => inr []
  | _ => py_iter j
  end.

(** [self[k]] on an [AttrDict]: a missing key raises [KeyError]. *)
Definition subscript (j : json) (k : string) : exn + json :=
  match j with
  | JObj o => match assoc k o with Some v => inr v | None => inl KeyError end
  | _ => inl TypeError
  end.

(** A [Users] collection: its members, [idxById] and [idxByName]. *)
Record users : Type := mkUsers {
  us_data : list json;
  us_idxById : list (pykey * json);
  us_idxByName : list (pykey * json)
}.

(** [Users._createIndex]: [by_id[x.id] = x], then [by_name[x.name] = x]. *)
Fixpoint create_user_index (data : list json) (by_id by_name : list (pykey * json))
  : exn + (list (pykey * json) * list (pykey * json)) :=
  match data with
  | [] => inr (by_id, by_name)
  | x :: t =>
      match getattr x "id" with
      | None => inl AttributeError
      | Some i =>
          match pykey_of i with
          | None => inl TypeError
          | Some ki =>
              match getattr x "name" with
              | None => inl AttributeError
              | Some n =>
                  match pykey_of n with
                  | None => inl TypeError
                  | Some kn => create_user_index t (kdict_set by_id ki x) (kdict_set by_name kn x)
                  end
              end
          end
      end
  end.

(** [Users(client, data)] *)
Definition users_init (data : list json) : exn + users :=
  match create_user_index data [] [] with
  | inl e => inl e
  | inr (bi, bn) => inr (mkUsers data bi bn)
  end.

(** [self.idxById[id]]: an unhashable key raises [TypeError], an absent one
    [KeyError]. *)
Definition index_lookup (idx : list (pykey * json)) (key : json) : exn + json :=
  match pykey_of key with
  | None => inl TypeError
  | Some k => match kassoc k idx with Some x => inr x | None => inl KeyError end
  end.

Definition users_byId (us : users) (id : json) : exn + json := index_lookup (us_idxById us) id.
Definition users_byName (us : users) (name : json) : exn + json :=
  index_lookup (us_idxByName us) name.

(** [users.byId(x)] for an item [x] of the raw [self["members"]] of a
    [Channel] (subscripting does not go through [AttrDict]'s wrapping): a
    list or a mapping there is a Python [list] or [dict], unhashable. *)
Definition member_lookup (us : users) (x : json) : exn + json :=
  match x with
  | JArr _ | JObj _ => inl TypeError
  | _ => users_byId us x
  end.

(** A channel or user argument: a raw id, or an entity whose [id] is used
    ([if isinstance(channel, Channel): channel = channel.id]). *)
Inductive id_or_entity : Type :=
| RawId (v : json)
| Entity (rec : json).

Definition as_id {S : Type} (a : id_or_entity) : M S json :=
  match a with
  | RawId v => ret v
  | Entity r => get_attr r "id"
  end.

Fixpoint mapM {S A B : Type} (f : A -> M S B) (l : list A) : M S (list B) :=
  match l with
  | [] => ret []
  | x :: t => y <- f x ;; ys <- mapM f t ;; ret (y :: ys)
  end.

Section ApiLayer.

Context {S : Type}.
(** [self._client.api_call(method, **kwargs)] of the client the API objects
    belong to ([Client] or [CachedClient]): method, [files], [params] and the
    keyword arguments. *)
Variable api_call : string -> option json -> list (string * json) ->
  list (string * json) -> M S json.
(** The keyword names that [api_call] binds to its own positional
    parameters ([client_own], [cached_own] below). *)
Variable api_own : list string.

(** [ChannelApi.list] *)
Definition channel_api_list : M S channels :=
  resp <- api_call "channels.list" None [] [] ;;
  chs <- get_attr resp "channels" ;;
  data <- lift_exn (userlist_of chs) ;;
  lift_exn (channels_init data).

(** [ChannelApi.byName] *)
Definition channel_api_byName (name : string) : M S json :=
  cs <- channel_api_list ;;
  lift_exn (channels_byName cs name).

(** [UserApi.list(...)] *)
Definition user_api_list (kwargs : list (string * json)) : M S users :=
  resp <- api_call "users.list" None [] kwargs ;;
  ms <- get_attr resp "members" ;;
  data <- lift_exn (userlist_of ms) ;;
  lift_exn (users_init data).

(** [UserApi.byName], [UserApi.byId] *)
Definition user_api_byName (name : json) : M S json :=
  us <- user_api_list [] ;; lift_exn (users_byName us name).
Definition user_api_byId (id : json) : M S json :=
  us <- user_api_list [] ;; lift_exn (users_byId us id).


(** [Channel.members]: [tuple(users.byId(x) for x in self["members"])]. *)
Definition channel_members (ch : json) : M S (list json) :=
  us <- user_api_list [] ;;
  ms <- lift_exn (subscript ch "members") ;;
  ids <- lift_exn (py_iter ms) ;;
  mapM (fun x => lift_exn (member_lookup us x)) ids.

(** A keyword given both by name and in [**kwargs] makes the call raise
    [TypeError] (got multiple values for a keyword argument). *)
Definition kw_clash (names : list string) (kwargs : list (string * json)) : bool :=
  existsb (fun k => existsb (String.eqb k) names) (map fst kwargs).

(** The [files] and [params] keywords bind to [Client.api_call]'s own
    parameters ([files=None] is the default). *)
Definition kw_files (kwargs : list (string * json)) : option json :=
  match assoc "files" kwargs with
  | None | Some JNull => None
  | Some f => Some f
  end.

(** [{**params, **kwargs}] raises [TypeError] when [params] is not a
    mapping. *)
Definition kw_params (kwargs : list (string * json)) : exn + list (string * json) :=
  match assoc "params" kwargs with
  | None => inr []
  | Some (JObj o) => inr o
  | Some _ => inl TypeError
  end.

Definition kw_rest (kwargs : list (string * json)) : list (string * json) :=
  filter (fun kv => negb (String.eqb (fst kv) "files" || String.eqb (fst kv) "params")) kwargs.

(** [self._client.api_call(method, **kw)] with the keywords of a caller:
    a keyword among [api_own] raises [TypeError] at binding; [files] and
    [params] go to their parameters, the others are the request's keyword
    arguments.  The chat methods are never cached, so both clients run
    [Client.api_call]'s body, whose [{**params, ...}] rejects a [params]
    that is not a mapping before any request. *)
Definition call_with_kwargs (method : string) (named kwargs : list (string * json))
  : M S json :=
  if kw_clash api_own kwargs then raise TypeError else
  params <- lift_exn (kw_params kwargs) ;;
  api_call method (kw_files kwargs) params (named ++ kw_rest kwargs).

(** [ChatApi.postMessage(channel, text, **kwargs)]: binding its own
    parameters refuses [self], [channel] and [text] in [kwargs]; then
    [channel.id] is read. *)
Definition chat_postMessage (channel : id_or_entity) (text : json)
    (kwargs : list (string * json)) : M S json :=
  if kw_clash ["self"; "channel"; "text"] kwargs then raise TypeError else
  cid <- as_id channel ;;
  call_with_kwargs "chat.postMessage" [("channel", cid); ("text", text)] kwargs.

(** [ChatApi.postEphemeral(channel, text, user, **kwargs)] *)
Definition chat_postEphemeral (channel : id_or_entity) (text : json)
    (user : id_or_entity) (kwargs : list (string * json)) : M S json :=
  if kw_clash ["self"; "channel"; "text"; "user"] kwargs then raise TypeError else
  cid <- as_id channel ;;
  uid <- as_id user ;;
  call_with_kwargs "chat.postEphemeral" [("channel", cid); ("text", text); ("user", uid)] kwargs.

End ApiLayer.

(** The names [api_call] takes as its own positional parameters, refused in
    [**kwargs]: [Client.api_call(self, api_method, ...)] and
    [CachedClient.api_call(self, method, ...)], which passes its keywords on
    to [Client.api_call]. *)
Definition client_own : list string := ["self"; "api_method"].
Definition cached_own : list string := ["self"; "method"; "api_method"].

(** ** Test fixtures *)

Definition msg (ts : string) : json := JObj [("ts", JStr ts)].

Definition page1 : json :=
  JObj [("messages", JArr [msg "3"; msg "2"]); ("has_more", JBool true)].
Definition page2 : json :=
  JObj [("messages", JArr [msg "1"]); ("has_more", JBool false)].

(** A mocked transport answering [page1], then [page2]. *)
Definition history_mock (n : nat) (_ : string) (_ : option json)
    (_ : list (string * json)) : exn + json :=
  match n with
  | 0 => inr page1
  | 1 => inr page2
  | _ => inl (TransportError "no more pages")
  end.

Definition general_ch : json := JObj [("name", JStr "general"); ("id", JStr "C1")].
Definition random_ch : json := JObj [("name", JStr "random"); ("id", JStr "C2")].

(** Cached-client fixtures: a transport that always answers [users_ok], a
    cache directory ".", and a stored [users.list] payload with [ok: false]. *)
Definition users_ok : json := JObj [("ok", JBool true); ("members", JArr [])].
Definition users_failed : json :=
  JObj [("ok", JBool false); ("error", JStr "invalid_auth")].

Definition users_mock (_ : nat) (_ : string) (_ : option json)
    (_ : list (string * json)) : exn + json := inr users_ok.

Definition s_fresh : cstate := cached_client_init users_mock "." [(".", EDir)].
Definition s_stored : cstate :=
  cached_client_init users_mock "."
    [(".", EDir); ("./users-list.json", EFile (Some users_failed))].

(** Further cached-client fixtures: a transport answering [users_failed], one
    that raises, and a client whose
    cache file does not parse. *)
Definition failed_mock (_ : nat) (_ : string) (_ : option json)
    (_ : list (string * json)) : exn + json := inr users_failed.
Definition raising_mock (_ : nat) (_ : string) (_ : option json)
    (_ : list (string * json)) : exn + json := inl (TransportError "timeout").

Definition s_failing : cstate := cached_client_init failed_mock "." [(".", EDir)].
Definition s_raising : cstate := cached_client_init raising_mock "." [(".", EDir)].
Definition s_corrupt : cstate :=
  cached_client_init users_mock "." [(".", EDir); ("./users-list.json", EFile None)].

(** ** Properties *)

Section HistoryAfter.

Variable ch_id : string.
Let ch : json := JObj [("id", JStr ch_id)].

(** The request [history_after] sends at each iteration. *)
Let request (oldest inclusive : json) : string * option json * list (string * json) :=
  ("channels.history", None,
   [("channel", JStr ch_id); ("oldest", oldest); ("count", JNum 1000);
    ("inclusive", inclusive)]).

(** C1 (amended): with the transport answering [{messages: [3, 2], has_more:
    true}] then [{messages: [1], has_more: false}], [history_after(ts,
    inclusive=i)] returns the messages 2, 3, 1 (each page reversed, pages in
    the order fetched) with [has_more] false; the first request carries
    [inclusive = i] (a boolean sent as 1/0), the second [oldest] = the last
    collected ts "3" and [inclusive] = False, sent as 0. *)
Theorem history_after_pages (fuel : nat) (ts i : json) :
  history_after (S (S (S fuel))) ch ts i (mkClient history_mock 0 []) =
  (inr (mkHistory [msg "2"; msg "3"; msg "1"] (JBool false)),
   mkClient history_mock 2
     [request (bool_to_int ts) (bool_to_int i); request (JStr "3") (JNum 0)]).
Proof. reflexivity. Qed.

End HistoryAfter.

(** C1 (as stated, refuted): the collected messages are not in the order
    ts "1", "2", "3". *)
Lemma history_after_order_counterexample :
  exists h c,
    history_after 10 (JObj [("id", JStr "C9")]) (JStr "0") (JNum 0)
      (mkClient history_mock 0 []) = (inr h, c) /\
    hist_messages h = [msg "2"; msg "3"; msg "1"] /\
    hist_messages h <> [msg "1"; msg "2"; msg "3"].
Proof.
  vm_compute. eexists; eexists. split; [reflexivity|].
  split; [reflexivity | discriminate].
Qed.

(** C6: [Emojies({"smile": url, "grin": "alias:smile"})["grin"]] is an alias
    whose [image_url] is the url of "smile";
    [Emojies({"ghost": "alias:missing"})["ghost"]] is built without error
    and its [image_url] is [None]. *)
Theorem emojies_alias_resolution :
  emojies_getitem [("smile", "https://x/smile.png"); ("grin", "alias:smile")] "grin" =
    inr (mkEmoji "grin" "alias:smile" "alias" (Some "https://x/smile.png")) /\
  emojies_getitem [("ghost", "alias:missing")] "ghost" =
    inr (mkEmoji "ghost" "alias:missing" "alias" None).
Proof. split; reflexivity. Qed.

(** C10: an entry whose image is exactly "alias:" passes the prefix test, the
    pattern "alias:(.+)" does not match it, and looking it up raises (the
    subscript of the failed match, a [TypeError]) for every mapping that
    holds it. *)
Theorem emoji_empty_alias_raises (parent : list (string * string)) (name : string) :
  assoc name parent = Some "alias:" ->
  String.prefix "alias:" "alias:" = true /\
  alias_target "alias:" = None /\
  emojies_getitem parent name = inl TypeError.
Proof.
  intros H. unfold emojies_getitem. rewrite H.
  split; [reflexivity|]. split; [reflexivity|].
  destruct (length parent); reflexivity.
Qed.

Lemma emoji_empty_alias_raises_witness :
  assoc "x" [("x", "alias:")] = Some "alias:" /\
  (String.prefix "alias:" "alias:" = true /\ alias_target "alias:" = None /\
   emojies_getitem [("x", "alias:")] "x" = inl TypeError).
Proof. split; [reflexivity | apply emoji_empty_alias_raises; reflexivity]. Defined.

(** *** Channel index *)

Lemma pykey_eqb_KStr_l (n : string) (k : pykey) :
  pykey_eqb (KStr n) k = true <-> k = KStr n.
Proof.
  destruct k; simpl; split; intros H; try discriminate.
  - apply String.eqb_eq in H. now subst.
  - inversion H; subst. apply String.eqb_refl.
Qed.

Lemma pykey_eqb_KStr_r (n : string) (k : pykey) :
  pykey_eqb k (KStr n) = true <-> k = KStr n.
Proof.
  destruct k; simpl; split; intros H; try discriminate.
  - apply String.eqb_eq in H. now subst.
  - inversion H; subst. apply String.eqb_refl.
Qed.

Lemma pykey_of_KStr (j : json) (n : string) :
  pykey_of j = Some (KStr n) -> j = JStr n.
Proof.
  destruct j as [|b|z|s|l|o]; simpl; intros H; try discriminate.
  - now inversion H.
  - match type of H with option_map _ ?g = _ => destruct g end; discriminate.
Qed.

Lemma kassoc_kdict_set_other {A : Type} (n : string) (d : list (pykey * A)) k v :
  k <> KStr n -> kassoc (KStr n) (kdict_set d k v) = kassoc (KStr n) d.
Proof.
  intros Hk. induction d as [|[k' v'] t IH]; cbn [kdict_set kassoc].
  - destruct (pykey_eqb (KStr n) k) eqn:E; [apply pykey_eqb_KStr_l in E; congruence|].
    reflexivity.
  - destruct (pykey_eqb k k') eqn:E1; cbn [kassoc].
    + destruct (pykey_eqb (KStr n) k') eqn:E2; [|reflexivity].
      apply pykey_eqb_KStr_l in E2; subst.
      apply pykey_eqb_KStr_r in E1; congruence.
    + destruct (pykey_eqb (KStr n) k'); [reflexivity | exact IH].
Qed.

Lemma create_index_absent (n : string) (data : list json) acc idx :
  (forall x, In x data -> getattr x "name" <> Some (JStr n)) ->
  kassoc (KStr n) acc = None ->
  create_index data acc = inr idx ->
  kassoc (KStr n) idx = None.
Proof.
  revert acc. induction data as [|x t IH]; simpl; intros acc Hall Hacc H.
  - inversion H; now subst.
  - destruct (getattr x "name") as [nm|] eqn:Ename; [|discriminate].
    destruct (pykey_of nm) as [k|] eqn:Ek; [|discriminate].
    apply (IH (kdict_set acc k x)); auto.
    rewrite kassoc_kdict_set_other; auto.
    intros ->. apply pykey_of_KStr in Ek. subst.
    apply (Hall x); auto.
Qed.

(** C7: [Channels] built from [{name: "general", id: "C1"}] and
    [{name: "random", id: "C2"}] answers [byName("general")] with the
    channel whose id is "C1"; [byName] of a name carried by no member at
    construction raises [KeyError]. *)
Theorem channels_byName_lookup :
  (exists cs ch,
     channels_init [general_ch; random_ch] = inr cs /\
     channels_byName cs "general" = inr ch /\ getattr ch "id" = Some (JStr "C1")) /\
  (forall data cs n,
     channels_init data = inr cs ->
     (forall x, In x data -> getattr x "name" <> Some (JStr n)) ->
     channels_byName cs n = inl KeyError).
Proof.
  split.
  - exists (mkChannels [general_ch; random_ch]
              [(KStr "general", general_ch); (KStr "random", random_ch)]), general_ch.
    repeat split; reflexivity.
  - intros data cs n Hinit Hall. unfold channels_init in Hinit.
    destruct (create_index data []) as [e|idx] eqn:Hidx; [discriminate|].
    inversion Hinit; subst. unfold channels_byName; simpl.
    rewrite (create_index_absent n data [] idx Hall eq_refl Hidx). reflexivity.
Qed.

Lemma channels_byName_lookup_witness :
  (exists cs ch,
     channels_init [general_ch; random_ch] = inr cs /\
     channels_byName cs "general" = inr ch /\ getattr ch "id" = Some (JStr "C1")) /\
  (channels_init [general_ch; random_ch] =
     inr (mkChannels [general_ch; random_ch]
            [(KStr "general", general_ch); (KStr "random", random_ch)]) /\
   (forall x, In x [general_ch; random_ch] -> getattr x "name" <> Some (JStr "dev")) /\
   channels_byName (mkChannels [general_ch; random_ch]
            [(KStr "general", general_ch); (KStr "random", random_ch)]) "dev" = inl KeyError).
Proof.
  pose proof channels_byName_lookup as [H1 H2].
  assert (Hi : channels_init [general_ch; random_ch] =
     inr (mkChannels [general_ch; random_ch]
            [(KStr "general", general_ch); (KStr "random", random_ch)])) by reflexivity.
  assert (Hn : forall x, In x [general_ch; random_ch] -> getattr x "name" <> Some (JStr "dev")).
  { intros x [<-|[<-|[]]]; discriminate. }
  split; [exact H1|]. split; [exact Hi|]. split; [exact Hn|].
  exact (H2 _ _ "dev" Hi Hn).
Defined.

(** *** Parameters of [Client.api_call] *)

Lemma assoc_dict_set {A : Type} (q k : string) (v : A) (d : list (string * A)) :
  assoc q (dict_set d k v) = if String.eqb q k then Some v else assoc q d.
Proof.
  induction d as [|[k' v'] t IH]; cbn [dict_set assoc]; [reflexivity|].
  destruct (String.eqb k k') eqn:E; cbn [assoc].
  - apply String.eqb_eq in E; subst. now destruct (String.eqb q k').
  - rewrite IH. destruct (String.eqb q k) eqn:Eq, (String.eqb q k') eqn:Eq'; auto.
    apply String.eqb_eq in Eq, Eq'; subst. now rewrite String.eqb_refl in E.
Qed.

Lemma assoc_app {A : Type} (q : string) (l1 l2 : list (string * A)) :
  assoc q (l1 ++ l2) =
  match assoc q l1 with Some v => Some v | None => assoc q l2 end.
Proof.
  induction l1 as [|[k v] t IH]; cbn [app assoc]; [reflexivity|].
  destruct (String.eqb q k); auto.
Qed.

Lemma assoc_fold_dict_set {A : Type} (q : string) (l d : list (string * A)) :
  assoc q (fold_left (fun acc kv => dict_set acc (fst kv) (snd kv)) l d) =
  match assoc q (rev l) with Some v => Some v | None => assoc q d end.
Proof.
  revert d. induction l as [|[k v] t IH]; intros d; cbn [fold_left rev]; [reflexivity|].
  rewrite IH, assoc_app, assoc_dict_set. cbn [fst snd assoc].
  destruct (assoc q (rev t)); auto. now destruct (String.eqb q k).
Qed.

Lemma assoc_not_key {A : Type} (q : string) (l : list (string * A)) :
  ~ In q (map fst l) -> assoc q l = None.
Proof.
  induction l as [|[k v] t IH]; cbn [map fst assoc In]; intros H; [reflexivity|].
  destruct (String.eqb q k) eqn:E.
  - apply String.eqb_eq in E; subst. exfalso; auto.
  - auto.
Qed.

Lemma assoc_rev_nodup {A : Type} (q : string) (l : list (string * A)) :
  NoDup (map fst l) -> assoc q (rev l) = assoc q l.
Proof.
  induction l as [|[k v] t IH]; cbn [map fst rev]; intros Hnd; [reflexivity|].
  inversion Hnd as [|? ? Hnin Hnd']; subst.
  rewrite assoc_app, IH by assumption. cbn [assoc].
  destruct (String.eqb q k) eqn:E.
  - apply String.eqb_eq in E; subst. now rewrite assoc_not_key.
  - now destruct (assoc q t).
Qed.

Lemma assoc_map_snd (f : json -> json) (q : string) (l : list (string * json)) :
  assoc q (map (fun kv => (fst kv, f (snd kv))) l) = option_map f (assoc q l).
Proof.
  induction l as [|[k v] t IH]; cbn [map fst snd assoc]; [reflexivity|].
  destruct (String.eqb q k); auto.
Qed.

Lemma assoc_in_nodup {A : Type} (q : string) (v : A) (l : list (string * A)) :
  NoDup (map fst l) -> In (q, v) l -> assoc q l = Some v.
Proof.
  induction l as [|[k w] t IH]; cbn [map fst assoc In]; intros Hnd Hin; [destruct Hin|].
  inversion Hnd as [|? ? Hnin Hnd']; subst.
  destruct Hin as [Heq|Hin].
  - inversion Heq; subst. now rewrite String.eqb_refl.
  - destruct (String.eqb q k) eqn:E; [|auto].
    apply String.eqb_eq in E; subst. exfalso. apply Hnin.
    apply (in_map fst) in Hin. exact Hin.
Qed.

Lemma union_params_lookup (params kwargs : list (string * json)) (q : string) :
  assoc q (union_params params kwargs) =
  option_map bool_to_int
    (match assoc q (rev kwargs) with
     | Some v => Some v
     | None => assoc q (rev params)
     end).
Proof.
  unfold union_params, merge_params.
  rewrite assoc_map_snd, !assoc_fold_dict_set. cbn [assoc].
  now destruct (assoc q (rev params)), (assoc q (rev kwargs)).
Qed.

Lemma union_params_no_bool (params kwargs : list (string * json)) :
  Forall (fun kv => forall b, snd kv <> JBool b) (union_params params kwargs).
Proof.
  unfold union_params. apply Forall_forall. intros [k v] Hin.
  apply in_map_iff in Hin as [[k' v'] [Heq _]]. cbn in Heq. inversion Heq; subst.
  intros b. destruct v'; cbn; discriminate.
Qed.

(** C8: [Client.api_call] calls the transport once, with one mapping: at every
    key it holds the named argument's value if there is one, the value in
    [params] otherwise, with [True]/[False] replaced by [1]/[0] and every
    other value unchanged; no boolean is left in it. *)
Theorem client_api_call_params (c : client) (api_method : string) (files : option json)
    (params kwargs : list (string * json)) :
  NoDup (map fst params) -> NoDup (map fst kwargs) ->
  exists up,
    client_api_call api_method files params kwargs c =
      (transport c (ncalls c) api_method files up,
       mkClient (transport c) (S (ncalls c)) (sent c ++ [(api_method, files, up)])) /\
    (forall q, assoc q up =
       option_map bool_to_int
         (match assoc q kwargs with Some v => Some v | None => assoc q params end)) /\
    Forall (fun kv => forall b, snd kv <> JBool b) up /\
    (forall v, bool_to_int v = match v with
                               | JBool true => JNum 1
                               | JBool false => JNum 0
                               | _ => v
                               end).
Proof.
  intros Hp Hk. exists (union_params params kwargs). split; [reflexivity|].
  split; [|split; [apply union_params_no_bool|]].
  - intros q. rewrite union_params_lookup, !assoc_rev_nodup by assumption. reflexivity.
  - intros [| [|] | | | |]; reflexivity.
Qed.

Lemma client_api_call_params_witness :
  (NoDup (map fst [("a", JBool true); ("b", JStr "x")]) /\
   NoDup (map fst [("b", JBool false)])) /\
  exists up,
    client_api_call "m" None [("a", JBool true); ("b", JStr "x")] [("b", JBool false)]
      (mkClient history_mock 0 []) =
      (transport (mkClient history_mock 0 []) 0 "m" None up,
       mkClient history_mock 1 [("m", None, up)]) /\
    (forall q, assoc q up =
       option_map bool_to_int
         (match assoc q [("b", JBool false)] with
          | Some v => Some v
          | None => assoc q [("a", JBool true); ("b", JStr "x")]
          end)) /\
    Forall (fun kv => forall b, snd kv <> JBool b) up /\
    (forall v, bool_to_int v = match v with
                               | JBool true => JNum 1
                               | JBool false => JNum 0
                               | _ => v
                               end).
Proof.
  assert (H1 : NoDup (map fst [("a", JBool true); ("b", JStr "x")])).
  { repeat constructor; cbn; intuition discriminate. }
  assert (H2 : NoDup (map fst [("b", JBool false)])).
  { repeat constructor; cbn; intuition. }
  split; [split; assumption|].
  exact (client_api_call_params (mkClient history_mock 0 []) "m" None _ _ H1 H2).
Defined.

(** C9: a key given both in [params] and as a named argument is sent with
    the named argument's value (after the boolean conversion). *)
Theorem client_api_call_kwargs_win (c : client) (api_method : string)
    (files : option json) (params kwargs : list (string * json)) (k : string) (vp vk : json) :
  NoDup (map fst kwargs) -> In (k, vp) params -> In (k, vk) kwargs ->
  exists up,
    client_api_call api_method files params kwargs c =
      (transport c (ncalls c) api_method files up,
       mkClient (transport c) (S (ncalls c)) (sent c ++ [(api_method, files, up)])) /\
    assoc k up = Some (bool_to_int vk).
Proof.
  intros Hk _ Hin. exists (union_params params kwargs). split; [reflexivity|].
  rewrite union_params_lookup, assoc_rev_nodup by assumption.
  now rewrite (assoc_in_nodup k vk kwargs Hk Hin).
Qed.

Lemma client_api_call_kwargs_win_witness :
  (NoDup (map fst [("inclusive", JBool false)]) /\
   In ("inclusive", JNum 5) [("inclusive", JNum 5); ("count", JNum 3)] /\
   In ("inclusive", JBool false) [("inclusive", JBool false)]) /\
  exists up,
    client_api_call "m" None [("inclusive", JNum 5); ("count", JNum 3)]
      [("inclusive", JBool false)] (mkClient history_mock 0 []) =
      (transport (mkClient history_mock 0 []) 0 "m" None up,
       mkClient history_mock 1 [("m", None, up)]) /\
    assoc "inclusive" up = Some (bool_to_int (JBool false)).
Proof.
  assert (H1 : NoDup (map fst [("inclusive", JBool false)])) by (repeat constructor; cbn; intuition).
  assert (H2 : In ("inclusive", JNum 5) [("inclusive", JNum 5); ("count", JNum 3)]) by (left; reflexivity).
  assert (H3 : In ("inclusive", JBool false) [("inclusive", JBool false)]) by (left; reflexivity).
  split; [auto|].
  exact (client_api_call_kwargs_win (mkClient history_mock 0 []) "m" None _ _ _ _ _ H1 H2 H3).
Defined.

(** *** [CachedClient] *)

Ltac split_matches :=
  repeat (cbn; match goal with
               | |- context [match ?x with _ => _ end] =>
                   lazymatch x with
                   | context [match _ with _ => _ end] => fail
                   | _ => destruct x eqn:?
                   end
               end).

Lemma check_ok_state (r : json) (s : cstate) :
  snd (check_ok r s) = s.
Proof.
  unfold check_ok, bind, get_attr, ret, raise.
  split_matches; reflexivity.
Qed.

Lemma check_ok_inr (r v : json) (s s1 : cstate) :
  check_ok r s = (inr v, s1) -> v = r /\ s1 = s.
Proof.
  unfold check_ok, bind, get_attr, ret, raise.
  destruct (getattr r "ok") as [ok|]; [|discriminate].
  destruct (negb (truthy ok)); [destruct (getattr r "error"); discriminate|].
  intros H; inversion H; auto.
Qed.

(** The check after resolution: a truthy [ok] returns the response, a falsy
    one raises [ApiFailed] with the [error] field. *)
Lemma check_ok_spec (r : json) (s : cstate) :
  (forall ok, getattr r "ok" = Some ok -> truthy ok = true ->
     check_ok r s = (inr r, s)) /\
  (forall ok e, getattr r "ok" = Some ok -> truthy ok = false ->
     getattr r "error" = Some e -> check_ok r s = (inl (ApiFailed e), s)).
Proof.
  unfold check_ok, bind, get_attr, ret, raise. split.
  - intros ok Hok Ht. rewrite Hok, Ht. reflexivity.
  - intros ok e Hok Ht He. rewrite Hok, Ht, He. reflexivity.
Qed.

Lemma cached_api_call_resolved (method : string) (files : option json)
    (params kwargs : list (string * json)) (s s1 : cstate) (r : json) :
  resolve method files params kwargs s = (inr r, s1) ->
  cached_api_call method files params kwargs s = check_ok r s1.
Proof. intros H. unfold cached_api_call, bind. now rewrite H. Qed.

Lemma cached_api_call_raised (method : string) (files : option json)
    (params kwargs : list (string * json)) (s s1 : cstate) (e : exn) :
  resolve method files params kwargs s = (inl e, s1) ->
  cached_api_call method files params kwargs s = (inl e, s1).
Proof. intros H. unfold cached_api_call, bind. now rewrite H. Qed.

Lemma lift_client_state {A : Type} (m : M client A) (s : cstate) :
  cache_dir (snd (lift_client m s)) = cache_dir s /\
  cache (snd (lift_client m s)) = cache s.
Proof. unfold lift_client. destruct (m (cc_client s)). split; reflexivity. Qed.

Lemma with_cache_inner_state (path : string) {m : M client json} (s : cstate) :
  cache_dir (snd (with_cache_inner path (lift_client m) s)) = cache_dir s /\
  cache (snd (with_cache_inner path (lift_client m) s)) = cache s.
Proof.
  unfold with_cache_inner, bind, get_attr, write_json, lift_client, ret, raise.
  split_matches; split; reflexivity.
Qed.

Lemma with_cache_holds (path : string) (m : M client json) (s s1 : cstate) (v : json) :
  with_cache path (lift_client m) s = (inr v, s1) ->
  assoc path (cache s1) = Some v /\ cache_dir s1 = cache_dir s.
Proof.
  unfold with_cache. destruct (assoc path (cache s)) as [w|] eqn:Hc.
  - intros H; inversion H; subst. auto.
  - pose proof (with_cache_inner_state path (m := m) s) as [Hd _].
    destruct (with_cache_inner path (lift_client m) s) as [[e|w] s2]; [discriminate|].
    intros H; inversion H; subst. cbn in *.
    rewrite assoc_dict_set, String.eqb_refl. auto.
Qed.

(** A key held in the in-memory cache stays there, whatever is called next. *)
Lemma cached_api_call_keeps (path : string) (v : json) (method : string)
    (files : option json) (params kwargs : list (string * json)) (s : cstate) :
  assoc path (cache s) = Some v ->
  assoc path (cache (snd (cached_api_call method files params kwargs s))) = Some v.
Proof.
  intros Hv. unfold cached_api_call, bind.
  assert (Hres : assoc path (cache (snd (resolve method files params kwargs s))) = Some v).
  { unfold resolve.
    destruct (cache_file (cache_dir s) method) as [p|].
    - unfold with_cache. destruct (assoc p (cache s)) as [w|] eqn:Hp; [exact Hv|].
      pose proof (with_cache_inner_state p
        (m := client_api_call method files params kwargs) s) as [_ Hc].
      destruct (with_cache_inner p _ s) as [[e|w] s2]; cbn in *; rewrite Hc; [exact Hv|].
      rewrite assoc_dict_set. destruct (String.eqb path p) eqn:E; [|exact Hv].
      apply String.eqb_eq in E; subst. congruence.
    - rewrite (proj2 (lift_client_state _ s)). exact Hv. }
  destruct (resolve method files params kwargs s) as [[e|r] s1]; [exact Hres|].
  now rewrite check_ok_state.
Qed.

(** C3: whatever the resolution went through (the in-memory cache, a cache
    file or a fresh transport call), a resolved response whose [ok] is truthy
    is returned as is, and one whose [ok] is falsy raises [ApiFailed]
    carrying its [error] field. *)
Theorem cached_api_call_ok_contract (method : string) (files : option json)
    (params kwargs : list (string * json)) (s s1 : cstate) (r : json) :
  resolve method files params kwargs s = (inr r, s1) ->
  (forall ok, getattr r "ok" = Some ok -> truthy ok = true ->
     cached_api_call method files params kwargs s = (inr r, s1)) /\
  (forall ok e, getattr r "ok" = Some ok -> truthy ok = false ->
     getattr r "error" = Some e ->
     cached_api_call method files params kwargs s = (inl (ApiFailed e), s1)).
Proof.
  intros H. rewrite (cached_api_call_resolved _ _ _ _ _ _ _ H).
  apply check_ok_spec.
Qed.

Lemma cached_api_call_ok_contract_witness :
  resolve "users.list" None [] [] s_fresh =
    (inr users_ok, snd (resolve "users.list" None [] [] s_fresh)) /\
  ((forall ok, getattr users_ok "ok" = Some ok -> truthy ok = true ->
     cached_api_call "users.list" None [] [] s_fresh =
       (inr users_ok, snd (resolve "users.list" None [] [] s_fresh))) /\
   (forall ok e, getattr users_ok "ok" = Some ok -> truthy ok = false ->
     getattr users_ok "error" = Some e ->
     cached_api_call "users.list" None [] [] s_fresh =
       (inl (ApiFailed e), snd (resolve "users.list" None [] [] s_fresh)))).
Proof.
  assert (H : resolve "users.list" None [] [] s_fresh =
    (inr users_ok, snd (resolve "users.list" None [] [] s_fresh))) by (vm_compute; reflexivity).
  split; [exact H|].
  exact (cached_api_call_ok_contract "users.list" None [] [] s_fresh _ users_ok H).
Defined.

(** C2 (as stated, refuted): a [users.list] payload stored with [ok: false]
    is not handed back; the call raises [ApiFailed], without any transport
    call. *)
Lemma cached_file_failure_counterexample :
  assoc "./users-list.json" (fs s_stored) = Some (EFile (Some users_failed)) /\
  fst (cached_api_call "users.list" None [] [] s_stored) =
    inl (ApiFailed (JStr "invalid_auth")) /\
  ncalls (cc_client (snd (cached_api_call "users.list" None [] [] s_stored))) = 0%nat.
Proof. vm_compute. auto. Qed.

(** C2 (amended): when the cache file of a [<resource>.list] call exists and
    the key is not yet held in memory, the file's JSON is read and made an
    [AttrDict] (that is, [dict(...)]), with no transport call and nothing
    written.  Content [dict] refuses (a number, [null], a non-empty string, a
    list whose items are not pairs) raises that error and nothing is
    memoized; otherwise the mapping is the resolved response, it is
    memoized, and the [ok]/[error] check is applied to it as to any
    response. *)
Theorem cached_list_from_file (method : string) (files : option json)
    (params kwargs : list (string * json)) (s : cstate) (path : string) (j : json) :
  cache_file (cache_dir s) method = Some path ->
  assoc path (cache s) = None ->
  assoc path (fs s) = Some (EFile (Some j)) ->
  (forall e, attrdict_of j = inl e ->
     cached_api_call method files params kwargs s = (inl e, log_op s (ReadFile path))) /\
  (forall d, attrdict_of j = inr d ->
     let s1 := set_cache (log_op s (ReadFile path)) (dict_set (cache s) path d) in
     resolve method files params kwargs s = (inr d, s1) /\
     cc_client s1 = cc_client s /\ fs s1 = fs s /\
     fslog s1 = fslog s ++ [ReadFile path] /\
     (forall ok, getattr d "ok" = Some ok -> truthy ok = true ->
        cached_api_call method files params kwargs s = (inr d, s1)) /\
     (forall ok e, getattr d "ok" = Some ok -> truthy ok = false ->
        getattr d "error" = Some e ->
        cached_api_call method files params kwargs s = (inl (ApiFailed e), s1))).
Proof.
  intros Hp Hc Hf. split.
  - intros e He. apply cached_api_call_raised.
    unfold resolve. rewrite Hp. unfold with_cache. rewrite Hc.
    unfold with_cache_inner. rewrite Hf, He. reflexivity.
  - intros d Hd s1.
    assert (Hr : resolve method files params kwargs s = (inr d, s1)).
    { unfold resolve. rewrite Hp. unfold with_cache. rewrite Hc.
      unfold with_cache_inner. rewrite Hf, Hd. reflexivity. }
    split; [exact Hr|]. split; [reflexivity|]. split; [reflexivity|].
    split; [reflexivity|].
    rewrite (cached_api_call_resolved _ _ _ _ _ _ _ Hr). apply check_ok_spec.
Qed.

Lemma cached_list_from_file_witness :
  (cache_file (cache_dir s_stored) "users.list" = Some "./users-list.json" /\
   assoc "./users-list.json" (cache s_stored) = None /\
   assoc "./users-list.json" (fs s_stored) = Some (EFile (Some users_failed))) /\
  ((forall e, attrdict_of users_failed = inl e ->
      cached_api_call "users.list" None [] [] s_stored =
        (inl e, log_op s_stored (ReadFile "./users-list.json"))) /\
   (forall d, attrdict_of users_failed = inr d ->
     let s1 := set_cache (log_op s_stored (ReadFile "./users-list.json"))
                 (dict_set (cache s_stored) "./users-list.json" d) in
     resolve "users.list" None [] [] s_stored = (inr d, s1) /\
     cc_client s1 = cc_client s_stored /\ fs s1 = fs s_stored /\
     fslog s1 = fslog s_stored ++ [ReadFile "./users-list.json"] /\
     (forall ok, getattr d "ok" = Some ok -> truthy ok = true ->
        cached_api_call "users.list" None [] [] s_stored = (inr d, s1)) /\
     (forall ok e, getattr d "ok" = Some ok -> truthy ok = false ->
        getattr d "error" = Some e ->
        cached_api_call "users.list" None [] [] s_stored = (inl (ApiFailed e), s1)))).
Proof.
  assert (H1 : cache_file (cache_dir s_stored) "users.list" = Some "./users-list.json")
    by reflexivity.
  assert (H2 : assoc "./users-list.json" (cache s_stored) = None) by reflexivity.
  assert (H3 : assoc "./users-list.json" (fs s_stored) = Some (EFile (Some users_failed)))
    by reflexivity.
  split; [auto|].
  exact (cached_list_from_file "users.list" None [] [] s_stored _ _ H1 H2 H3).
Defined.

(** C4: once a [<resource>.list] call has returned [v], its cache key holds
    [v] in memory; a second call of the same method (whatever its other
    arguments) returns [v] and leaves the state as it is (no transport call,
    no file read or written), and the key stays held after any further call. *)
Theorem cached_list_memoized (method : string) (files files2 : option json)
    (params kwargs params2 kwargs2 : list (string * json)) (s s1 : cstate)
    (path : string) (v : json) :
  cache_file (cache_dir s) method = Some path ->
  cached_api_call method files params kwargs s = (inr v, s1) ->
  assoc path (cache s1) = Some v /\
  cached_api_call method files2 params2 kwargs2 s1 = (inr v, s1) /\
  (forall method' files' params' kwargs',
     assoc path (cache (snd (cached_api_call method' files' params' kwargs' s1))) = Some v).
Proof.
  intros Hp H.
  unfold cached_api_call, bind in H.
  destruct (resolve method files params kwargs s) as [[e|r] s2] eqn:Hr; [discriminate|].
  assert (Hck : check_ok r s2 = (inr v, s1)) by exact H.
  apply check_ok_inr in H as [-> ->].
  unfold resolve in Hr. rewrite Hp in Hr.
  apply with_cache_holds in Hr as [Hm Hd].
  assert (Hcall : cached_api_call method files2 params2 kwargs2 s2 = (inr r, s2)).
  { unfold cached_api_call, bind, resolve. rewrite Hd, Hp. unfold with_cache. rewrite Hm.
    exact Hck. }
  split; [exact Hm|]. split; [exact Hcall|].
  intros. now apply cached_api_call_keeps.
Qed.

Lemma cached_list_memoized_witness :
  (cache_file (cache_dir s_fresh) "users.list" = Some "./users-list.json" /\
   cached_api_call "users.list" None [] [] s_fresh =
     (inr users_ok, snd (cached_api_call "users.list" None [] [] s_fresh))) /\
  (assoc "./users-list.json" (cache (snd (cached_api_call "users.list" None [] [] s_fresh)))
     = Some users_ok /\
   cached_api_call "users.list" None [] [("presence", JBool true)]
     (snd (cached_api_call "users.list" None [] [] s_fresh)) =
     (inr users_ok, snd (cached_api_call "users.list" None [] [] s_fresh)) /\
   (forall method' files' params' kwargs',
     assoc "./users-list.json" (cache (snd (cached_api_call method' files' params' kwargs'
        (snd (cached_api_call "users.list" None [] [] s_fresh))))) = Some users_ok)).
Proof.
  assert (H1 : cache_file (cache_dir s_fresh) "users.list" = Some "./users-list.json")
    by reflexivity.
  assert (H2 : cached_api_call "users.list" None [] [] s_fresh =
     (inr users_ok, snd (cached_api_call "users.list" None [] [] s_fresh)))
    by (vm_compute; reflexivity).
  split; [auto|].
  exact (cached_list_memoized "users.list" None None [] [] [] [("presence", JBool true)]
           s_fresh _ _ _ H1 H2).
Defined.

(** C5 (code bug): constructing a [CachedClient] on a path that is an
    existing plain file succeeds and leaves the path as it is: the
    constructor never checks it.  The check meant for it,
    [_setup_cache_dir], is never called, and its test is inverted: it
    accepts the plain file and raises "<path> is not a directory" for an
    existing directory. *)
Lemma setup_cache_dir_inverted :
  let s_file := cached_client_init users_mock "cache" [(".", EDir); ("cache", EFile None)] in
  let s_dir := cached_client_init users_mock "cache" [(".", EDir); ("cache", EDir)] in
  cache_dir s_file = "cache" /\ fs s_file = [(".", EDir); ("cache", EFile None)] /\
  cache s_file = [] /\ fslog s_file = [] /\
  setup_cache_dir s_file = (inr tt, s_file) /\
  setup_cache_dir s_dir = (inl (PyException "cache is not a directory"), s_dir).
Proof. cbv zeta. repeat split; reflexivity. Qed.

(** ** Further properties of the module *)

(** *** [CachedClient]: resolution paths *)

Lemma resolve_fresh (m : string) (files : option json) (params kwargs : list (string * json))
    (s : cstate) (path : string) :
  cache_file (cache_dir s) m = Some path ->
  assoc path (cache s) = None ->
  assoc path (fs s) = None ->
  resolve m files params kwargs s =
  (let c := cc_client s in
   let s' := set_client s (after_call c m files params kwargs) in
   match transport c (ncalls c) m files (union_params params kwargs) with
   | inl e => (inl e, s')
   | inr v =>
       match getattr v "ok" with
       | None => (inl AttributeError, s')
       | Some ok =>
           if truthy ok then
             match dir_error (parent_dir path) (fs s) with
             | None =>
                 (inr v, set_cache (set_fs s' (dict_set (fs s) path (EFile (Some v))) (WriteFile path))
                           (dict_set (cache s) path v))
             | Some e => (inl e, s')
             end
           else (inr v, set_cache s' (dict_set (cache s) path v))
       end
   end).
Proof.
  intros Hp Hc Hf. unfold resolve. rewrite Hp. unfold with_cache. rewrite Hc.
  unfold with_cache_inner. rewrite Hf.
  unfold bind, lift_client, client_api_call, get_attr, write_json, ret, raise.
  cbn. destruct (transport (cc_client s) (ncalls (cc_client s)) m files
                   (union_params params kwargs)) as [e|v]; [reflexivity|].
  destruct (getattr v "ok") as [ok|]; [|reflexivity].
  destruct (truthy ok); [|reflexivity].
  cbn. unfold open_w_error. rewrite Hf.
  destruct (dir_error (parent_dir path) (fs s)); reflexivity.
Qed.

Lemma check_ok_result (r : json) (s s' : cstate) :
  fst (check_ok r s) = fst (check_ok r s').
Proof.
  unfold check_ok, bind, get_attr, ret, raise.
  split_matches; reflexivity.
Qed.

(** A fresh [.list] call whose response has a truthy [ok], with the cache
    directory in place: the exact state reached. *)
Lemma cached_fresh_ok_step (m : string) (files : option json)
    (params kwargs : list (string * json)) (s : cstate) (path : string) (v ok : json) :
  cache_file (cache_dir s) m = Some path ->
  assoc path (cache s) = None ->
  assoc path (fs s) = None ->
  dir_error (parent_dir path) (fs s) = None ->
  transport (cc_client s) (ncalls (cc_client s)) m files (union_params params kwargs) = inr v ->
  getattr v "ok" = Some ok -> truthy ok = true ->
  cached_api_call m files params kwargs s =
  (inr v, set_cache (set_fs (set_client s (after_call (cc_client s) m files params kwargs))
                       (dict_set (fs s) path (EFile (Some v))) (WriteFile path))
            (dict_set (cache s) path v)).
Proof.
  intros Hp Hc Hf Hd Ht Hok Htr.
  assert (Hr := resolve_fresh m files params kwargs s path Hp Hc Hf).
  cbv zeta in Hr. rewrite Ht, Hok, Htr, Hd in Hr.
  rewrite (cached_api_call_resolved _ _ _ _ _ _ _ Hr).
  apply (proj1 (check_ok_spec v _) ok Hok Htr).
Qed.

(** A method that is not a [.list] call bypasses the cache: every call asks
    the transport once, never reads or writes a file and leaves the
    in-memory cache as it is; its outcome is the transport's response put
    through the [ok] check. *)
Theorem cached_uncached_method (m : string) (files : option json)
    (params kwargs : list (string * json)) (s : cstate) :
  cache_file (cache_dir s) m = None ->
  let s1 := snd (cached_api_call m files params kwargs s) in
  cache s1 = cache s /\ fs s1 = fs s /\ fslog s1 = fslog s /\
  ncalls (cc_client s1) = S (ncalls (cc_client s)) /\
  fst (cached_api_call m files params kwargs s) =
    match transport (cc_client s) (ncalls (cc_client s)) m files (union_params params kwargs) with
    | inl e => inl e
    | inr v => fst (check_ok v s)
    end.
Proof.
  intros Hn s1. subst s1. unfold cached_api_call, bind, resolve. rewrite Hn.
  unfold lift_client, client_api_call. cbn.
  destruct (transport (cc_client s) (ncalls (cc_client s)) m files
              (union_params params kwargs)) as [e|v]; [cbn; auto|].
  rewrite check_ok_state, (check_ok_result v _ s). cbn. auto.
Qed.

Lemma cached_uncached_method_witness :
  cache_file (cache_dir s_fresh) "chat.postMessage" = None /\
  (let s1 := snd (cached_api_call "chat.postMessage" None [] [("text", JStr "hi")] s_fresh) in
   cache s1 = cache s_fresh /\ fs s1 = fs s_fresh /\ fslog s1 = fslog s_fresh /\
   ncalls (cc_client s1) = S (ncalls (cc_client s_fresh)) /\
   fst (cached_api_call "chat.postMessage" None [] [("text", JStr "hi")] s_fresh) =
     match transport (cc_client s_fresh) (ncalls (cc_client s_fresh)) "chat.postMessage" None
             (union_params [] [("text", JStr "hi")]) with
     | inl e => inl e
     | inr v => fst (check_ok v s_fresh)
     end).
Proof.
  assert (H : cache_file (cache_dir s_fresh) "chat.postMessage" = None) by reflexivity.
  split; [exact H | exact (cached_uncached_method _ _ _ _ s_fresh H)].
Defined.

(** A fresh [.list] call (key not in memory, no cache file yet, cache
    directory present) whose response has a truthy [ok]: the transport is
    called once, the response is returned, written to the cache file and
    held in memory. *)
Theorem cached_fresh_ok_writes (m : string) (files : option json)
    (params kwargs : list (string * json)) (s : cstate) (path : string) (v ok : json) :
  cache_file (cache_dir s) m = Some path ->
  assoc path (cache s) = None ->
  assoc path (fs s) = None ->
  dir_error (parent_dir path) (fs s) = None ->
  transport (cc_client s) (ncalls (cc_client s)) m files (union_params params kwargs) = inr v ->
  getattr v "ok" = Some ok -> truthy ok = true ->
  let s1 := snd (cached_api_call m files params kwargs s) in
  fst (cached_api_call m files params kwargs s) = inr v /\
  assoc path (fs s1) = Some (EFile (Some v)) /\
  assoc path (cache s1) = Some v /\
  ncalls (cc_client s1) = S (ncalls (cc_client s)) /\
  fslog s1 = fslog s ++ [WriteFile path].
Proof.
  intros Hp Hc Hf Hd Ht Hok Htr s1. subst s1.
  rewrite (cached_fresh_ok_step m files params kwargs s path v ok Hp Hc Hf Hd Ht Hok Htr).
  cbn. rewrite !assoc_dict_set, String.eqb_refl. auto.
Qed.

Lemma cached_fresh_ok_writes_witness :
  (cache_file (cache_dir s_fresh) "users.list" = Some "./users-list.json" /\
   assoc "./users-list.json" (cache s_fresh) = None /\
   assoc "./users-list.json" (fs s_fresh) = None /\
   dir_error (parent_dir "./users-list.json") (fs s_fresh) = None /\
   transport (cc_client s_fresh) (ncalls (cc_client s_fresh)) "users.list" None
     (union_params [] []) = inr users_ok /\
   getattr users_ok "ok" = Some (JBool true) /\ truthy (JBool true) = true) /\
  (let s1 := snd (cached_api_call "users.list" None [] [] s_fresh) in
   fst (cached_api_call "users.list" None [] [] s_fresh) = inr users_ok /\
   assoc "./users-list.json" (fs s1) = Some (EFile (Some users_ok)) /\
   assoc "./users-list.json" (cache s1) = Some users_ok /\
   ncalls (cc_client s1) = S (ncalls (cc_client s_fresh)) /\
   fslog s1 = fslog s_fresh ++ [WriteFile "./users-list.json"]).
Proof.
  split; [repeat split; reflexivity|].
  apply (cached_fresh_ok_writes "users.list" None [] [] s_fresh "./users-list.json"
           users_ok (JBool true)); reflexivity.
Defined.

(** A value with an attribute is a mapping, which [AttrDict] copies. *)
Lemma attrdict_of_getattr (v : json) (k : string) (x : json) :
  getattr v k = Some x -> attrdict_of v = inr v.
Proof. destruct v; cbn; congruence. Qed.

(** Cache round trip: after a fresh [.list] call has written its response,
    a new [CachedClient] on the same directory and file system (with any
    transport) gets the same response for that method from the file, with
    no transport call and one file read. *)
Theorem cached_file_round_trip (m : string) (files files' : option json)
    (params kwargs params' kwargs' : list (string * json)) (s : cstate) (path : string)
    (v ok : json) (t : nat -> string -> option json -> list (string * json) -> exn + json) :
  cache_file (cache_dir s) m = Some path ->
  assoc path (cache s) = None ->
  assoc path (fs s) = None ->
  dir_error (parent_dir path) (fs s) = None ->
  transport (cc_client s) (ncalls (cc_client s)) m files (union_params params kwargs) = inr v ->
  getattr v "ok" = Some ok -> truthy ok = true ->
  let s' := cached_client_init t (cache_dir s) (fs (snd (cached_api_call m files params kwargs s))) in
  fst (cached_api_call m files' params' kwargs' s') = inr v /\
  ncalls (cc_client (snd (cached_api_call m files' params' kwargs' s'))) = 0%nat /\
  fslog (snd (cached_api_call m files' params' kwargs' s')) = [ReadFile path].
Proof.
  intros Hp Hc Hf Hd Ht Hok Htr s'. subst s'.
  rewrite (cached_fresh_ok_step m files params kwargs s path v ok Hp Hc Hf Hd Ht Hok Htr).
  cbn [snd fs set_cache set_fs].
  set (fs1 := dict_set (fs s) path (EFile (Some v))).
  assert (Hf1 : assoc path fs1 = Some (EFile (Some v))).
  { subst fs1. rewrite assoc_dict_set, String.eqb_refl. reflexivity. }
  unfold cached_api_call, bind, resolve. cbn [cache_dir cached_client_init].
  rewrite Hp. unfold with_cache. cbn [cache cached_client_init assoc].
  unfold with_cache_inner. cbn [fs cached_client_init]. rewrite Hf1.
  rewrite (attrdict_of_getattr v "ok" ok Hok).
  match goal with |- context [check_ok v ?st] =>
    rewrite (proj1 (check_ok_spec v st) ok Hok Htr) end.
  cbn. auto.
Qed.

Lemma cached_file_round_trip_witness :
  (cache_file (cache_dir s_fresh) "users.list" = Some "./users-list.json" /\
   assoc "./users-list.json" (cache s_fresh) = None /\
   assoc "./users-list.json" (fs s_fresh) = None /\
   dir_error (parent_dir "./users-list.json") (fs s_fresh) = None /\
   transport (cc_client s_fresh) (ncalls (cc_client s_fresh)) "users.list" None
     (union_params [] []) = inr users_ok /\
   getattr users_ok "ok" = Some (JBool true) /\ truthy (JBool true) = true) /\
  (let s' := cached_client_init history_mock (cache_dir s_fresh)
               (fs (snd (cached_api_call "users.list" None [] [] s_fresh))) in
   fst (cached_api_call "users.list" None [] [] s') = inr users_ok /\
   ncalls (cc_client (snd (cached_api_call "users.list" None [] [] s'))) = 0%nat /\
   fslog (snd (cached_api_call "users.list" None [] [] s')) = [ReadFile "./users-list.json"]).
Proof.
  split; [repeat split; reflexivity|].
  apply (cached_file_round_trip "users.list" None None [] [] [] [] s_fresh "./users-list.json"
           users_ok (JBool true) history_mock); reflexivity.
Defined.

(** A fresh [.list] response with a falsy [ok] raises [ApiFailed] with its
    [error] and writes no file, but the failed response is held in memory:
    every later call of the method raises the same [ApiFailed] without asking
    the transport again. *)
Theorem cached_fresh_failure_memoized (m : string) (files : option json)
    (params kwargs : list (string * json)) (s : cstate) (path : string) (v ok e : json) :
  cache_file (cache_dir s) m = Some path ->
  assoc path (cache s) = None ->
  assoc path (fs s) = None ->
  transport (cc_client s) (ncalls (cc_client s)) m files (union_params params kwargs) = inr v ->
  getattr v "ok" = Some ok -> truthy ok = false -> getattr v "error" = Some e ->
  let s1 := snd (cached_api_call m files params kwargs s) in
  fst (cached_api_call m files params kwargs s) = inl (ApiFailed e) /\
  fs s1 = fs s /\ fslog s1 = fslog s /\ assoc path (cache s1) = Some v /\
  (forall files' params' kwargs',
     cached_api_call m files' params' kwargs' s1 = (inl (ApiFailed e), s1)).
Proof.
  intros Hp Hc Hf Ht Hok Htr He s1.
  assert (Hr := resolve_fresh m files params kwargs s path Hp Hc Hf).
  cbv zeta in Hr. rewrite Ht, Hok, Htr in Hr.
  set (s2 := set_cache (set_client s (after_call (cc_client s) m files params kwargs))
                       (dict_set (cache s) path v)) in Hr.
  assert (Hcall : cached_api_call m files params kwargs s = (inl (ApiFailed e), s2)).
  { rewrite (cached_api_call_resolved _ _ _ _ _ _ _ Hr).
    apply (proj2 (check_ok_spec v s2) ok e Hok Htr He). }
  subst s1. rewrite Hcall. cbn [fst snd].
  assert (Hm : assoc path (cache s2) = Some v).
  { subst s2. cbn. rewrite assoc_dict_set, String.eqb_refl. reflexivity. }
  split; [reflexivity|]. split; [reflexivity|]. split; [reflexivity|].
  split; [exact Hm|].
  intros files' params' kwargs'.
  assert (Hr2 : resolve m files' params' kwargs' s2 = (inr v, s2)).
  { unfold resolve. replace (cache_dir s2) with (cache_dir s) by reflexivity.
    rewrite Hp. unfold with_cache. now rewrite Hm. }
  rewrite (cached_api_call_resolved _ _ _ _ _ _ _ Hr2).
  apply (proj2 (check_ok_spec v s2) ok e Hok Htr He).
Qed.

Lemma cached_fresh_failure_memoized_witness :
  (cache_file (cache_dir s_failing) "users.list" = Some "./users-list.json" /\
   assoc "./users-list.json" (cache s_failing) = None /\
   assoc "./users-list.json" (fs s_failing) = None /\
   transport (cc_client s_failing) (ncalls (cc_client s_failing)) "users.list" None
     (union_params [] []) = inr users_failed /\
   getattr users_failed "ok" = Some (JBool false) /\ truthy (JBool false) = false /\
   getattr users_failed "error" = Some (JStr "invalid_auth")) /\
  (let s1 := snd (cached_api_call "users.list" None [] [] s_failing) in
   fst (cached_api_call "users.list" None [] [] s_failing) = inl (ApiFailed (JStr "invalid_auth")) /\
   fs s1 = fs s_failing /\ fslog s1 = fslog s_failing /\
   assoc "./users-list.json" (cache s1) = Some users_failed /\
   (forall files' params' kwargs',
      cached_api_call "users.list" files' params' kwargs' s1 =
        (inl (ApiFailed (JStr "invalid_auth")), s1))).
Proof.
  split; [repeat split; reflexivity|].
  apply (cached_fresh_failure_memoized "users.list" None [] [] s_failing "./users-list.json"
           users_failed (JBool false) (JStr "invalid_auth")); reflexivity.
Defined.

(** An exception of the transport during a fresh [.list] call propagates
    unchanged; nothing is held in memory and no file is written, so the next
    call asks the transport again. *)
Theorem cached_transport_error_not_cached (m : string) (files : option json)
    (params kwargs : list (string * json)) (s : cstate) (path : string) (e : exn) :
  cache_file (cache_dir s) m = Some path ->
  assoc path (cache s) = None ->
  assoc path (fs s) = None ->
  transport (cc_client s) (ncalls (cc_client s)) m files (union_params params kwargs) = inl e ->
  let s1 := snd (cached_api_call m files params kwargs s) in
  fst (cached_api_call m files params kwargs s) = inl e /\
  cache s1 = cache s /\ fs s1 = fs s /\ fslog s1 = fslog s /\
  ncalls (cc_client s1) = S (ncalls (cc_client s)).
Proof.
  intros Hp Hc Hf Ht s1. subst s1.
  assert (Hr := resolve_fresh m files params kwargs s path Hp Hc Hf).
  cbv zeta in Hr. rewrite Ht in Hr.
  rewrite (cached_api_call_raised _ _ _ _ _ _ _ Hr). cbn. auto.
Qed.

Lemma cached_transport_error_not_cached_witness :
  (cache_file (cache_dir s_raising) "users.list" = Some "./users-list.json" /\
   assoc "./users-list.json" (cache s_raising) = None /\
   assoc "./users-list.json" (fs s_raising) = None /\
   transport (cc_client s_raising) (ncalls (cc_client s_raising)) "users.list" None
     (union_params [] []) = inl (TransportError "timeout")) /\
  (let s1 := snd (cached_api_call "users.list" None [] [] s_raising) in
   fst (cached_api_call "users.list" None [] [] s_raising) = inl (TransportError "timeout") /\
   cache s1 = cache s_raising /\ fs s1 = fs s_raising /\ fslog s1 = fslog s_raising /\
   ncalls (cc_client s1) = S (ncalls (cc_client s_raising))).
Proof.
  split; [repeat split; reflexivity|].
  apply (cached_transport_error_not_cached "users.list" None [] [] s_raising
           "./users-list.json" (TransportError "timeout")); reflexivity.
Defined.

(** When the directory the cache file goes in cannot be reached (a
    component of it is missing or is a plain file), a fresh [.list] call
    whose response has a truthy [ok] fails, after the transport call, with
    the error [open(cache, "w")] raises; no file is written and the response
    is not held in memory. *)
Theorem cached_missing_dir_write_fails (m : string) (files : option json)
    (params kwargs : list (string * json)) (s : cstate) (path : string) (v ok : json)
    (e : exn) :
  cache_file (cache_dir s) m = Some path ->
  assoc path (cache s) = None ->
  assoc path (fs s) = None ->
  dir_error (parent_dir path) (fs s) = Some e ->
  transport (cc_client s) (ncalls (cc_client s)) m files (union_params params kwargs) = inr v ->
  getattr v "ok" = Some ok -> truthy ok = true ->
  let s1 := snd (cached_api_call m files params kwargs s) in
  fst (cached_api_call m files params kwargs s) = inl e /\
  cache s1 = cache s /\ fs s1 = fs s /\ fslog s1 = fslog s /\
  ncalls (cc_client s1) = S (ncalls (cc_client s)).
Proof.
  intros Hp Hc Hf Hd Ht Hok Htr s1. subst s1.
  assert (Hr := resolve_fresh m files params kwargs s path Hp Hc Hf).
  cbv zeta in Hr. rewrite Ht, Hok, Htr, Hd in Hr.
  rewrite (cached_api_call_raised _ _ _ _ _ _ _ Hr). cbn. auto.
Qed.

(** The method ["a/b.list"] on a client whose cache directory "." exists:
    its cache file "./a/b-list.json" would go in "./a", which is missing. *)
Lemma cached_missing_dir_write_fails_witness :
  (cache_file (cache_dir s_fresh) "a/b.list" = Some "./a/b-list.json" /\
   assoc "./a/b-list.json" (cache s_fresh) = None /\
   assoc "./a/b-list.json" (fs s_fresh) = None /\
   dir_error (parent_dir "./a/b-list.json") (fs s_fresh) = Some FileNotFoundError /\
   transport (cc_client s_fresh) (ncalls (cc_client s_fresh)) "a/b.list" None
     (union_params [] []) = inr users_ok /\
   getattr users_ok "ok" = Some (JBool true) /\ truthy (JBool true) = true) /\
  (let s1 := snd (cached_api_call "a/b.list" None [] [] s_fresh) in
   fst (cached_api_call "a/b.list" None [] [] s_fresh) = inl FileNotFoundError /\
   cache s1 = cache s_fresh /\ fs s1 = fs s_fresh /\ fslog s1 = fslog s_fresh /\
   ncalls (cc_client s1) = S (ncalls (cc_client s_fresh))).
Proof.
  split; [repeat split; reflexivity|].
  apply (cached_missing_dir_write_fails "a/b.list" None [] [] s_fresh "./a/b-list.json"
           users_ok (JBool true)); reflexivity.
Defined.

(** A cache file that does not parse makes the call fail with the JSON
    decoding error, without a transport call and without holding anything in
    memory. *)
Theorem cached_unreadable_file (m : string) (files : option json)
    (params kwargs : list (string * json)) (s : cstate) (path : string) :
  cache_file (cache_dir s) m = Some path ->
  assoc path (cache s) = None ->
  assoc path (fs s) = Some (EFile None) ->
  let s1 := snd (cached_api_call m files params kwargs s) in
  fst (cached_api_call m files params kwargs s) = inl JSONDecodeError /\
  cache s1 = cache s /\ fs s1 = fs s /\ cc_client s1 = cc_client s /\
  fslog s1 = fslog s ++ [ReadFile path].
Proof.
  intros Hp Hc Hf s1. subst s1.
  assert (Hr : resolve m files params kwargs s =
               (inl JSONDecodeError, log_op s (ReadFile path))).
  { unfold resolve. rewrite Hp. unfold with_cache. rewrite Hc.
    unfold with_cache_inner. now rewrite Hf. }
  rewrite (cached_api_call_raised _ _ _ _ _ _ _ Hr). cbn. auto.
Qed.

Lemma cached_unreadable_file_witness :
  (cache_file (cache_dir s_corrupt) "users.list" = Some "./users-list.json" /\
   assoc "./users-list.json" (cache s_corrupt) = None /\
   assoc "./users-list.json" (fs s_corrupt) = Some (EFile None)) /\
  (let s1 := snd (cached_api_call "users.list" None [] [] s_corrupt) in
   fst (cached_api_call "users.list" None [] [] s_corrupt) = inl JSONDecodeError /\
   cache s1 = cache s_corrupt /\ fs s1 = fs s_corrupt /\ cc_client s1 = cc_client s_corrupt /\
   fslog s1 = fslog s_corrupt ++ [ReadFile "./users-list.json"]).
Proof.
  split; [repeat split; reflexivity|].
  apply (cached_unreadable_file "users.list" None [] [] s_corrupt "./users-list.json");
    reflexivity.
Defined.

(** *** Cache keys *)

Lemma string_app_assoc (a b c : string) : ((a ++ b) ++ c)%string = (a ++ (b ++ c))%string.
Proof. induction a as [|x a IH]; cbn; [reflexivity | now rewrite IH]. Qed.

Lemma string_app_empty (a : string) : (a ++ "")%string = a.
Proof. induction a as [|x a IH]; cbn; [reflexivity | now rewrite IH]. Qed.

Lemma split_dot_aux_no_dot (s cur : string) :
  no_dot s = true -> split_dot_aux s cur = [(cur ++ s)%string].
Proof.
  revert cur. induction s as [|c s IH]; intros cur H; cbn in *.
  - now rewrite string_app_empty.
  - apply andb_true_iff in H as [Hc Hs].
    destruct (Ascii.eqb c "."%char); [discriminate|].
    rewrite IH by exact Hs. now rewrite string_app_assoc.
Qed.

Lemma split_dot_aux_dot (s1 s2 cur : string) :
  no_dot s1 = true ->
  split_dot_aux (s1 ++ String "." s2) cur = (cur ++ s1)%string :: split_dot_aux s2 "".
Proof.
  revert cur. induction s1 as [|c s1 IH]; intros cur H; cbn in *.
  - now rewrite string_app_empty.
  - apply andb_true_iff in H as [Hc Hs].
    destruct (Ascii.eqb c "."%char); [discriminate|].
    rewrite IH by exact Hs. now rewrite string_app_assoc.
Qed.

(** The cache key of a [.list] method is made of its first and last
    components only: ["<a>.list"] and ["<a>.<b>.list"] share the file
    ["<dir>/<a>-list.json"]. *)
Theorem cache_file_list_methods (dir a b : string) :
  no_dot a = true -> no_dot b = true ->
  cache_file dir (a ++ ".list") = Some (dir ++ "/" ++ a ++ "-list.json")%string /\
  cache_file dir (a ++ "." ++ b ++ ".list") = Some (dir ++ "/" ++ a ++ "-list.json")%string.
Proof.
  intros Ha Hb. unfold cache_file, split_dot. split.
  - change (".list")%string with (String "." "list").
    rewrite split_dot_aux_dot by exact Ha.
    rewrite split_dot_aux_no_dot by reflexivity. reflexivity.
  - change ("." ++ b ++ ".list")%string with (String "." (b ++ String "." "list")).
    rewrite split_dot_aux_dot by exact Ha. rewrite split_dot_aux_dot by exact Hb.
    rewrite split_dot_aux_no_dot by reflexivity. reflexivity.
Qed.

Lemma cache_file_list_methods_witness :
  (no_dot "users" = true /\ no_dot "profile" = true) /\
  (cache_file "." ("users" ++ ".list") = Some ("." ++ "/" ++ "users" ++ "-list.json")%string /\
   cache_file "." ("users" ++ "." ++ "profile" ++ ".list") =
     Some ("." ++ "/" ++ "users" ++ "-list.json")%string).
Proof.
  split; [split; reflexivity|].
  apply cache_file_list_methods; reflexivity.
Defined.



(** *** Indexes of [Channels] and [Users] *)

Lemma kassoc_kdict_set_same {A : Type} (n : string) (d : list (pykey * A)) v :
  kassoc (KStr n) (kdict_set d (KStr n) v) = Some v.
Proof.
  induction d as [|[k' v'] t IH]; cbn [kdict_set kassoc].
  - cbn. now rewrite String.eqb_refl.
  - destruct (pykey_eqb (KStr n) k') eqn:E; cbn [kassoc]; rewrite ?E; auto.
Qed.

Lemma kassoc_kdict_set {A : Type} (n : string) (d : list (pykey * A)) k v :
  kassoc (KStr n) (kdict_set d k v) =
  if pykey_eqb (KStr n) k then Some v else kassoc (KStr n) d.
Proof.
  destruct (pykey_eqb (KStr n) k) eqn:E.
  - apply pykey_eqb_KStr_l in E; subst. apply kassoc_kdict_set_same.
  - apply kassoc_kdict_set_other. intros ->. cbn in E. now rewrite String.eqb_refl in E.
Qed.

Lemma pykey_of_JStr (n : string) (j : json) (k : pykey) :
  pykey_of j = Some k -> (pykey_eqb (KStr n) k = true <-> j = JStr n).
Proof.
  intros Hk. split.
  - intros E. apply pykey_eqb_KStr_l in E; subst. now apply pykey_of_KStr.
  - intros ->. cbn in Hk. inversion Hk; subst. cbn. apply String.eqb_refl.
Qed.

Lemma create_index_app (l1 l2 : list json) acc :
  create_index (l1 ++ l2) acc =
  match create_index l1 acc with inl e => inl e | inr a => create_index l2 a end.
Proof.
  revert acc. induction l1 as [|x t IH]; intros acc; cbn; [reflexivity|].
  destruct (getattr x "name"); [|reflexivity].
  destruct (pykey_of j); [apply IH | reflexivity].
Qed.

Lemma last_member_split {A : Type} (pre post l : list A) (x y : A) :
  pre ++ x :: post = l ++ [y] ->
  (post = [] /\ x = y /\ pre = l) \/
  (exists post', post = post' ++ [y] /\ l = pre ++ x :: post').
Proof.
  intros H. destruct post as [|p post].
  - left. apply app_inj_tail in H as [Hpre Hx]. auto.
  - right. destruct (exists_last (l := p :: post) ltac:(discriminate)) as [post' [w Hw]].
    rewrite Hw in H.
    replace (pre ++ x :: post' ++ [w]) with ((pre ++ x :: post') ++ [w]) in H
      by (rewrite <- app_assoc; reflexivity).
    apply app_inj_tail in H as [Hl Hy]. subst. exists post'. auto.
Qed.

(** [Channels.byName(n)] answers the last member whose [name] is [n]: a
    name shared by several channels resolves to the one that comes last, and
    every member's name resolves. *)
Theorem channels_byName_last (data : list json) (cs : channels) (n : string) (x : json) :
  channels_init data = inr cs ->
  channels_byName cs n = inr x <->
  exists pre post, data = pre ++ x :: post /\ getattr x "name" = Some (JStr n) /\
    (forall y, In y post -> getattr y "name" <> Some (JStr n)).
Proof.
  unfold channels_init, channels_byName.
  destruct (create_index data []) as [e|idx] eqn:Hidx; [discriminate|].
  intros Hcs; inversion Hcs; subst; cbn [idxByName]. clear Hcs.
  revert idx Hidx. induction data as [|y data IH] using rev_ind; intros idx Hidx.
  - cbn in Hidx. inversion Hidx; subst. cbn. split; [discriminate|].
    intros (pre & post & Hd & _). destruct pre; discriminate.
  - rewrite create_index_app in Hidx.
    destruct (create_index data []) as [e|a] eqn:Ha; [discriminate|].
    cbn in Hidx. destruct (getattr y "name") as [ny|] eqn:Hny; [|discriminate].
    destruct (pykey_of ny) as [ky|] eqn:Hky; [|discriminate].
    inversion Hidx; subst. clear Hidx.
    rewrite kassoc_kdict_set.
    destruct (pykey_eqb (KStr n) ky) eqn:E.
    + apply (pykey_of_JStr n) in Hky. apply Hky in E. subst ny.
      split.
      * intros H; inversion H; subst. exists data, []. repeat split; auto.
      * intros (pre & post & Hd & Hx & Hpost). symmetry in Hd.
        apply last_member_split in Hd as [(-> & -> & ->)|(post' & -> & _)]; [reflexivity|].
        exfalso. apply (Hpost y); [apply in_or_app; right; left; reflexivity | exact Hny].
    + assert (Hne : ny <> JStr n).
      { intros Heq. apply (pykey_of_JStr n) in Hky. apply Hky in Heq. congruence. }
      rewrite (IH a eq_refl). split.
      * intros (pre & post & Hd & Hx & Hpost). exists pre, (post ++ [y]).
        subst data. rewrite <- app_assoc. repeat split; auto.
        intros z Hz. apply in_app_or in Hz as [Hz|[<-|[]]]; [auto|congruence].
      * intros (pre & post & Hd & Hx & Hpost). symmetry in Hd.
        apply last_member_split in Hd as [(-> & -> & ->)|(post' & -> & ->)].
        -- congruence.
        -- exists pre, post'. repeat split; auto.
           intros z Hz. apply Hpost. apply in_or_app; now left.
Qed.

Lemma channels_byName_last_witness :
  channels_init [general_ch; random_ch; JObj [("name", JStr "general"); ("id", JStr "C3")]] =
    inr (mkChannels [general_ch; random_ch; JObj [("name", JStr "general"); ("id", JStr "C3")]]
           [(KStr "general", JObj [("name", JStr "general"); ("id", JStr "C3")]);
            (KStr "random", random_ch)]) /\
  (channels_byName (mkChannels [general_ch; random_ch; JObj [("name", JStr "general"); ("id", JStr "C3")]]
           [(KStr "general", JObj [("name", JStr "general"); ("id", JStr "C3")]);
            (KStr "random", random_ch)]) "general"
     = inr (JObj [("name", JStr "general"); ("id", JStr "C3")]) <->
   exists pre post,
     [general_ch; random_ch; JObj [("name", JStr "general"); ("id", JStr "C3")]] =
       pre ++ JObj [("name", JStr "general"); ("id", JStr "C3")] :: post /\
     getattr (JObj [("name", JStr "general"); ("id", JStr "C3")]) "name" = Some (JStr "general") /\
     (forall y, In y post -> getattr y "name" <> Some (JStr "general"))).
Proof.
  assert (H : channels_init [general_ch; random_ch; JObj [("name", JStr "general"); ("id", JStr "C3")]] =
    inr (mkChannels [general_ch; random_ch; JObj [("name", JStr "general"); ("id", JStr "C3")]]
           [(KStr "general", JObj [("name", JStr "general"); ("id", JStr "C3")]);
            (KStr "random", random_ch)])) by reflexivity.
  split; [exact H | exact (channels_byName_last _ _ "general" _ H)].
Defined.

Lemma create_user_index_app (l1 l2 : list json) bi bn :
  create_user_index (l1 ++ l2) bi bn =
  match create_user_index l1 bi bn with
  | inl e => inl e
  | inr (bi', bn') => create_user_index l2 bi' bn'
  end.
Proof.
  revert bi bn. induction l1 as [|x t IH]; intros bi bn; cbn; [reflexivity|].
  destruct (getattr x "id") as [i|]; [|reflexivity].
  destruct (pykey_of i); [|reflexivity].
  destruct (getattr x "name") as [n|]; [|reflexivity].
  destruct (pykey_of n); [apply IH | reflexivity].
Qed.

(** [Users.byId(i)] answers the last member whose [id] is [i]; every
    member's id resolves. *)
Theorem users_byId_last (data : list json) (us : users) (i : string) (x : json) :
  users_init data = inr us ->
  users_byId us (JStr i) = inr x <->
  exists pre post, data = pre ++ x :: post /\ getattr x "id" = Some (JStr i) /\
    (forall y, In y post -> getattr y "id" <> Some (JStr i)).
Proof.
  unfold users_init, users_byId, index_lookup. cbn [pykey_of].
  destruct (create_user_index data [] []) as [e|[bi bn]] eqn:Hidx; [discriminate|].
  intros Hus; inversion Hus; subst; cbn [us_idxById]. clear Hus.
  revert bi bn Hidx. induction data as [|y data IH] using rev_ind; intros bi bn Hidx.
  - cbn in Hidx. inversion Hidx; subst. cbn. split; [discriminate|].
    intros (pre & post & Hd & _). destruct pre; discriminate.
  - rewrite create_user_index_app in Hidx.
    destruct (create_user_index data [] []) as [e|[a an]] eqn:Ha; [discriminate|].
    cbn in Hidx. destruct (getattr y "id") as [iy|] eqn:Hiy; [|discriminate].
    destruct (pykey_of iy) as [ky|] eqn:Hky; [|discriminate].
    destruct (getattr y "name") as [ny|]; [|discriminate].
    destruct (pykey_of ny); [|discriminate].
    inversion Hidx; subst. clear Hidx.
    rewrite kassoc_kdict_set.
    destruct (pykey_eqb (KStr i) ky) eqn:E.
    + apply (pykey_of_JStr i) in Hky. apply Hky in E. subst iy.
      split.
      * intros H; inversion H; subst. exists data, []. repeat split; auto.
      * intros (pre & post & Hd & Hx & Hpost). symmetry in Hd.
        apply last_member_split in Hd as [(-> & -> & ->)|(post' & -> & _)]; [reflexivity|].
        exfalso. apply (Hpost y); [apply in_or_app; right; left; reflexivity | exact Hiy].
    + assert (Hne : iy <> JStr i).
      { intros Heq. apply (pykey_of_JStr i) in Hky. apply Hky in Heq. congruence. }
      rewrite (IH a an eq_refl). split.
      * intros (pre & post & Hd & Hx & Hpost). exists pre, (post ++ [y]).
        subst data. rewrite <- app_assoc. repeat split; auto.
        intros z Hz. apply in_app_or in Hz as [Hz|[<-|[]]]; [auto|congruence].
      * intros (pre & post & Hd & Hx & Hpost). symmetry in Hd.
        apply last_member_split in Hd as [(-> & -> & ->)|(post' & -> & ->)].
        -- congruence.
        -- exists pre, post'. repeat split; auto.
           intros z Hz. apply Hpost. apply in_or_app; now left.
Qed.

Definition alice : json := JObj [("id", JStr "U1"); ("name", JStr "alice")].
Definition bob : json := JObj [("id", JStr "U2"); ("name", JStr "bob")].

Lemma users_byId_last_witness :
  users_init [alice; bob] =
    inr (mkUsers [alice; bob] [(KStr "U1", alice); (KStr "U2", bob)]
                 [(KStr "alice", alice); (KStr "bob", bob)]) /\
  (users_byId (mkUsers [alice; bob] [(KStr "U1", alice); (KStr "U2", bob)]
                 [(KStr "alice", alice); (KStr "bob", bob)]) (JStr "U2") = inr bob <->
   exists pre post, [alice; bob] = pre ++ bob :: post /\
     getattr bob "id" = Some (JStr "U2") /\
     (forall y, In y post -> getattr y "id" <> Some (JStr "U2"))).
Proof.
  assert (H : users_init [alice; bob] =
    inr (mkUsers [alice; bob] [(KStr "U1", alice); (KStr "U2", bob)]
                 [(KStr "alice", alice); (KStr "bob", bob)])) by reflexivity.
  split; [exact H | exact (users_byId_last _ _ "U2" _ H)].
Defined.

(** *** [Channel.members] and [UserApi.conversations] *)

Lemma mapM_lift_ok {S A B : Type} (f : A -> exn + B) (l : list A) (s : S) :
  (forall x, In x l -> exists y, f x = inr y) ->
  exists ys, mapM (fun x => lift_exn (f x)) l s = (inr ys, s) /\
    Forall2 (fun x y => f x = inr y) l ys.
Proof.
  induction l as [|x t IH]; intros H; cbn.
  - exists []. split; [reflexivity | constructor].
  - destruct (H x (or_introl eq_refl)) as [y Hy].
    destruct IH as [ys [Hys Hf]]; [intros z Hz; apply H; now right|].
    exists (y :: ys). unfold bind, lift_exn. rewrite Hy. cbn.
    unfold lift_exn in Hys. rewrite Hys. split; [reflexivity | now constructor].
Qed.

Lemma mapM_lift_err {S A B : Type} (f : A -> exn + B) (l : list A) (s : S) :
  (exists x e, In x l /\ f x = inl e) ->
  exists e, mapM (fun x => lift_exn (f x)) l s = (inl e, s).
Proof.
  induction l as [|x t IH]; intros (z & e & Hz & He); [destruct Hz|].
  cbn. unfold bind, lift_exn. destruct (f x) as [e'|y] eqn:Hx.
  - exists e'. reflexivity.
  - cbn. destruct Hz as [->|Hz]; [congruence|].
    destruct IH as [e'' He'']; [eauto|]. unfold lift_exn in He''. rewrite He''. exists e''. reflexivity.
Qed.

(** [Channel.members] makes one [users.list] request and maps every item of
    the channel's raw [members] to the user with that id, in order; if an
    item has no user (or is an unhashable list or mapping) the property
    raises instead. *)
Theorem channel_members_lookup {S : Type}
    (api_call : string -> option json -> list (string * json) -> list (string * json) -> M S json)
    (ch : json) (ids : list json) (s s1 : S) (us : users) :
  user_api_list api_call [] s = (inr us, s1) ->
  subscript ch "members" = inr (JArr ids) ->
  ((forall i, In i ids -> exists u, member_lookup us i = inr u) ->
     exists members, channel_members api_call ch s = (inr members, s1) /\
       Forall2 (fun i u => member_lookup us i = inr u) ids members) /\
  ((exists i e, In i ids /\ member_lookup us i = inl e) ->
     exists e, channel_members api_call ch s = (inl e, s1)).
Proof.
  intros Hl Hm.
  assert (E : channel_members api_call ch s =
              mapM (fun x => lift_exn (member_lookup us x)) ids s1).
  { unfold channel_members. cbv [bind]. rewrite Hl.
    unfold lift_exn at 1. rewrite Hm. reflexivity. }
  rewrite E. split.
  - intros Hall. apply (mapM_lift_ok (member_lookup us) ids s1 Hall).
  - intros Hex. apply (mapM_lift_err (member_lookup us) ids s1 Hex).
Qed.

(** A plain [Client] whose transport answers [users.list] with alice and bob. *)
Definition members_mock (_ : nat) (_ : string) (_ : option json)
    (_ : list (string * json)) : exn + json :=
  inr (JObj [("ok", JBool true); ("members", JArr [alice; bob])]).

Definition members_client : client := mkClient members_mock 0 [].

Definition general_members : json :=
  JObj [("id", JStr "C1"); ("members", JArr [JStr "U2"; JStr "U1"])].

Lemma channel_members_lookup_witness :
  (user_api_list client_api_call [] members_client =
     (inr (mkUsers [alice; bob] [(KStr "U1", alice); (KStr "U2", bob)]
                   [(KStr "alice", alice); (KStr "bob", bob)]),
      snd (user_api_list client_api_call [] members_client)) /\
   subscript general_members "members" = inr (JArr [JStr "U2"; JStr "U1"])) /\
  (((forall i, In i [JStr "U2"; JStr "U1"] -> exists u,
       member_lookup (mkUsers [alice; bob] [(KStr "U1", alice); (KStr "U2", bob)]
                   [(KStr "alice", alice); (KStr "bob", bob)]) i = inr u) ->
     exists members, channel_members client_api_call general_members members_client =
       (inr members, snd (user_api_list client_api_call [] members_client)) /\
       Forall2 (fun i u => member_lookup (mkUsers [alice; bob] [(KStr "U1", alice); (KStr "U2", bob)]
                   [(KStr "alice", alice); (KStr "bob", bob)]) i = inr u)
         [JStr "U2"; JStr "U1"] members) /\
   ((exists i e, In i [JStr "U2"; JStr "U1"] /\
       member_lookup (mkUsers [alice; bob] [(KStr "U1", alice); (KStr "U2", bob)]
                   [(KStr "alice", alice); (KStr "bob", bob)]) i = inl e) ->
     exists e, channel_members client_api_call general_members members_client =
       (inl e, snd (user_api_list client_api_call [] members_client)))).
Proof.
  assert (H1 : user_api_list client_api_call [] members_client =
     (inr (mkUsers [alice; bob] [(KStr "U1", alice); (KStr "U2", bob)]
                   [(KStr "alice", alice); (KStr "bob", bob)]),
      snd (user_api_list client_api_call [] members_client))) by reflexivity.
  assert (H2 : subscript general_members "members" = inr (JArr [JStr "U2"; JStr "U1"]))
    by reflexivity.
  split; [split; assumption|].
  exact (channel_members_lookup client_api_call general_members _ _ _ _ H1 H2).
Defined.






(** *** [ChatApi] *)

Lemma kw_clash_false (names : list string) (kwargs : list (string * json)) (n : string) :
  kw_clash names kwargs = false -> In n names -> ~ In n (map fst kwargs).
Proof.
  unfold kw_clash. intros H Hn Hk.
  assert (E : existsb (fun k => existsb (String.eqb k) names) (map fst kwargs) = true).
  { apply existsb_exists. exists n. split; [exact Hk|].
    apply existsb_exists. exists n. split; [exact Hn | apply String.eqb_refl]. }
  congruence.
Qed.

Lemma kw_clash_false_intro (names : list string) (kwargs : list (string * json)) :
  (forall n, In n names -> ~ In n (map fst kwargs)) -> kw_clash names kwargs = false.
Proof.
  intros H. destruct (kw_clash names kwargs) eqn:E; [|reflexivity]. exfalso.
  unfold kw_clash in E. apply existsb_exists in E as (k & Hk & Hex).
  apply existsb_exists in Hex as (n & Hn & Heq). apply String.eqb_eq in Heq. subst k.
  exact (H n Hn Hk).
Qed.

Lemma kw_clash_true (names : list string) (kwargs : list (string * json)) (n : string) :
  In n names -> In n (map fst kwargs) -> kw_clash names kwargs = true.
Proof.
  intros Hn Hk. destruct (kw_clash names kwargs) eqn:E; [reflexivity|].
  exfalso. exact (kw_clash_false _ _ n E Hn Hk).
Qed.

Lemma as_id_spec {S : Type} (a : id_or_entity) (v : json) (s : S) :
  (a = RawId v \/ exists r, a = Entity r /\ getattr r "id" = Some v) ->
  as_id a s = (inr v, s).
Proof.
  intros [->|(r & -> & H)]; [reflexivity|]. unfold as_id, get_attr. now rewrite H.
Qed.

Lemma in_fst_filter (f : string * json -> bool) (l : list (string * json)) (k : string) :
  In k (map fst (filter f l)) -> In k (map fst l).
Proof.
  rewrite !in_map_iff. intros (kv & Hk & Hin). apply filter_In in Hin as [Hin _].
  now exists kv.
Qed.

Lemma nodup_fst_filter (f : string * json -> bool) (l : list (string * json)) :
  NoDup (map fst l) -> NoDup (map fst (filter f l)).
Proof.
  induction l as [|kv t IH]; cbn [map filter]; intros Hnd; [constructor|].
  inversion Hnd as [|? ? Hnin Hnd']; subst.
  destruct (f kv); cbn [map]; [constructor|]; auto.
  intros Hin. exact (Hnin (in_fst_filter f t _ Hin)).
Qed.

Lemma assoc_filter_keep (f : string * json -> bool) (l : list (string * json)) (q : string) :
  (forall v, f (q, v) = true) -> assoc q (filter f l) = assoc q l.
Proof.
  intros Hf. induction l as [|[k v] t IH]; [reflexivity|]. cbn [filter].
  destruct (String.eqb q k) eqn:E.
  - apply String.eqb_eq in E. subst k. rewrite Hf. cbn [assoc].
    now rewrite String.eqb_refl.
  - destruct (f (k, v)); cbn [assoc]; rewrite ?E; exact IH.
Qed.

Lemma kw_rest_assoc (kwargs : list (string * json)) (q : string) :
  q <> "files" -> q <> "params" -> assoc q (kw_rest kwargs) = assoc q kwargs.
Proof.
  intros H1 H2. apply assoc_filter_keep. intros v. cbn [fst].
  apply String.eqb_neq in H1, H2. now rewrite H1, H2.
Qed.

(** [ChatApi.postMessage] on a [Client], for a channel given as a raw id or
    as a [Channel] whose [id] is [cid] and keyword arguments [kwargs]
    (a Python call has distinct keyword names):
    - a keyword named [self], [channel] or [text] raises [TypeError] when
      [postMessage]'s parameters are bound, before any request;
    - otherwise one named [api_method] raises [TypeError] when
      [Client.api_call]'s parameters are bound, before any request;
    - otherwise a [params] keyword that is not a mapping raises [TypeError]
      in [{**params, **kwargs}], before any request;
    - otherwise one [chat.postMessage] request is sent with [files] the
      [files] keyword ([None] when absent) and parameters that hold
      [channel] = [cid], [text] = [text] and, for every other name but
      [files] and [params], the keyword argument of that name, or else the
      entry of the [params] mapping (each [True]/[False] sent as [1]/[0]). *)
Theorem chat_postMessage_request (c : client) (channel : id_or_entity)
    (cid text : json) (kwargs : list (string * json)) :
  (channel = RawId cid \/ exists r, channel = Entity r /\ getattr r "id" = Some cid) ->
  NoDup (map fst kwargs) ->
  (kw_clash ["self"; "channel"; "text"] kwargs = true ->
     chat_postMessage client_api_call client_own channel text kwargs c = (inl TypeError, c)) /\
  (kw_clash ["self"; "channel"; "text"] kwargs = false ->
   In "api_method" (map fst kwargs) ->
     chat_postMessage client_api_call client_own channel text kwargs c = (inl TypeError, c)) /\
  (kw_clash ["self"; "channel"; "text"; "api_method"] kwargs = false ->
   forall e, kw_params kwargs = inl e ->
     chat_postMessage client_api_call client_own channel text kwargs c = (inl e, c)) /\
  (kw_clash ["self"; "channel"; "text"; "api_method"] kwargs = false ->
   forall p, kw_params kwargs = inr p -> NoDup (map fst p) ->
     exists up,
       chat_postMessage client_api_call client_own channel text kwargs c =
         (transport c (ncalls c) "chat.postMessage" (kw_files kwargs) up,
          mkClient (transport c) (S (ncalls c))
            (sent c ++ [("chat.postMessage", kw_files kwargs, up)])) /\
       assoc "channel" up = Some (bool_to_int cid) /\
       assoc "text" up = Some (bool_to_int text) /\
       (forall q, q <> "channel" -> q <> "text" -> q <> "files" -> q <> "params" ->
          assoc q up = option_map bool_to_int
                         (match assoc q kwargs with Some v => Some v | None => assoc q p end))).
Proof.
  intros Hch Hnd.
  assert (Hsplit : kw_clash ["self"; "channel"; "text"; "api_method"] kwargs = false ->
                   kw_clash ["self"; "channel"; "text"] kwargs = false /\
                   kw_clash client_own kwargs = false).
  { intros Hk. split; apply kw_clash_false_intro; intros n Hn;
      apply (kw_clash_false _ _ n Hk); cbn in Hn |- *; tauto. }
  assert (E : kw_clash ["self"; "channel"; "text"] kwargs = false ->
              chat_postMessage client_api_call client_own channel text kwargs c =
              call_with_kwargs client_api_call client_own "chat.postMessage"
                [("channel", cid); ("text", text)] kwargs c).
  { intros Hk. unfold chat_postMessage. rewrite Hk. cbv [bind].
    now rewrite (as_id_spec channel cid c Hch). }
  split; [|split; [|split]].
  - intros Hk. unfold chat_postMessage. now rewrite Hk.
  - intros Hk Ha. rewrite (E Hk). unfold call_with_kwargs.
    now rewrite (kw_clash_true client_own kwargs "api_method") by (cbn; tauto).
  - intros Hk e He. destruct (Hsplit Hk) as [Hk1 Hk2].
    rewrite (E Hk1). unfold call_with_kwargs. rewrite Hk2. cbv [bind].
    now rewrite He.
  - intros Hk p Hp Hndp. destruct (Hsplit Hk) as [Hk1 Hk2].
    rewrite (E Hk1). unfold call_with_kwargs. rewrite Hk2. cbv [bind]. rewrite Hp.
    set (kw := [("channel", cid); ("text", text)] ++ kw_rest kwargs).
    exists (union_params p kw). split; [reflexivity|].
    assert (Hnin : forall n, In n ["channel"; "text"] -> ~ In n (map fst (kw_rest kwargs))).
    { intros n Hn Hin. apply in_fst_filter in Hin.
      exact (kw_clash_false _ _ n Hk ltac:(cbn in Hn |- *; tauto) Hin). }
    assert (Hnd' : NoDup (map fst kw)).
    { unfold kw. cbn [app map fst]. constructor; [|constructor].
      - intros [Heq|Hin]; [discriminate|]. exact (Hnin "channel" (or_introl eq_refl) Hin).
      - exact (Hnin "text" (or_intror (or_introl eq_refl))).
      - exact (nodup_fst_filter _ _ Hnd). }
    assert (L : forall q, assoc q (union_params p kw) =
                  option_map bool_to_int
                    (match assoc q kw with Some v => Some v | None => assoc q p end)).
    { intros q. rewrite union_params_lookup, !assoc_rev_nodup by assumption. reflexivity. }
    split; [|split]; [rewrite L; reflexivity | rewrite L; reflexivity |].
    intros q Hq1 Hq2 Hq3 Hq4. rewrite L. unfold kw. cbn [app assoc].
    rewrite kw_rest_assoc by assumption.
    apply String.eqb_neq in Hq1, Hq2. now rewrite Hq1, Hq2.
Qed.

Definition chat_log (n : nat) (m : string) (f : option json) (p : list (string * json))
  : exn + json :=
  inr (JObj [("ok", JBool true); ("ts", JStr "1")]).

Definition chat_kwargs : list (string * json) :=
  [("as_user", JBool true); ("params", JObj [("link_names", JBool true); ("text", JStr "x")])].

Lemma chat_postMessage_request_witness :
  ((Entity general_ch = RawId (JStr "C1") \/
      exists r, Entity general_ch = Entity r /\ getattr r "id" = Some (JStr "C1")) /\
   NoDup (map fst chat_kwargs)) /\
  (kw_clash ["self"; "channel"; "text"; "api_method"] chat_kwargs = false /\
   kw_params chat_kwargs = inr [("link_names", JBool true); ("text", JStr "x")] /\
   NoDup (map fst [("link_names", JBool true); ("text", JStr "x")]) /\
   exists up,
     chat_postMessage client_api_call client_own (Entity general_ch) (JStr "hi")
       chat_kwargs (mkClient chat_log 0 []) =
       (transport (mkClient chat_log 0 []) 0 "chat.postMessage" None up,
        mkClient chat_log 1 [("chat.postMessage", None, up)]) /\
     assoc "channel" up = Some (JStr "C1") /\
     assoc "text" up = Some (JStr "hi") /\
     (forall q, q <> "channel" -> q <> "text" -> q <> "files" -> q <> "params" ->
        assoc q up = option_map bool_to_int
          (match assoc q chat_kwargs with
           | Some v => Some v
           | None => assoc q [("link_names", JBool true); ("text", JStr "x")]
           end))).
Proof.
  assert (Hch : Entity general_ch = RawId (JStr "C1") \/
      exists r, Entity general_ch = Entity r /\ getattr r "id" = Some (JStr "C1")).
  { right. exists general_ch. split; reflexivity. }
  assert (Hnd : NoDup (map fst chat_kwargs)).
  { cbn. constructor; [intros [H|[]]; discriminate|constructor; [intros []|constructor]]. }
  assert (Hndp : NoDup (map fst [("link_names", JBool true); ("text", JStr "x")])).
  { cbn. constructor; [intros [H|[]]; discriminate|constructor; [intros []|constructor]]. }
  split; [split; assumption|].
  assert (Hk : kw_clash ["self"; "channel"; "text"; "api_method"] chat_kwargs = false)
    by reflexivity.
  assert (Hp : kw_params chat_kwargs = inr [("link_names", JBool true); ("text", JStr "x")])
    by reflexivity.
  split; [exact Hk|]. split; [exact Hp|]. split; [exact Hndp|].
  exact (proj2 (proj2 (proj2 (chat_postMessage_request (mkClient chat_log 0 [])
           (Entity general_ch) (JStr "C1") (JStr "hi") chat_kwargs Hch Hnd))) Hk _ Hp Hndp).
Defined.

(** [ChatApi.postEphemeral] with a [User] that has no [id], on any client:
    a keyword argument named [self], [channel], [text] or [user] raises
    [TypeError] when the parameters are bound; otherwise reading [user.id]
    raises [AttributeError], whatever the channel; either way no request is
    made. *)
Theorem chat_postEphemeral_user_without_id {S : Type}
    (api_call : string -> option json -> list (string * json) -> list (string * json) -> M S json)
    (api_own : list string)
    (channel : id_or_entity) (text u : json) (kwargs : list (string * json)) (s : S) :
  getattr u "id" = None ->
  (kw_clash ["self"; "channel"; "text"; "user"] kwargs = true ->
     chat_postEphemeral api_call api_own channel text (Entity u) kwargs s = (inl TypeError, s)) /\
  (kw_clash ["self"; "channel"; "text"; "user"] kwargs = false ->
     chat_postEphemeral api_call api_own channel text (Entity u) kwargs s = (inl AttributeError, s)).
Proof.
  intros H. split; intros Hk; unfold chat_postEphemeral; rewrite Hk; [reflexivity|].
  cbv [bind]. destruct channel as [v|r]; cbn [as_id]; unfold get_attr.
  - cbv [ret]. rewrite H. reflexivity.
  - destruct (getattr r "id"); cbv [ret raise]; [rewrite H|]; reflexivity.
Qed.

Lemma chat_postEphemeral_user_without_id_witness :
  getattr (JObj [("name", JStr "carol")]) "id" = None /\
  chat_postEphemeral client_api_call client_own (RawId (JStr "C1")) (JStr "hi")
    (Entity (JObj [("name", JStr "carol")])) [("user", JStr "U2")] (mkClient chat_log 0 []) =
    (inl TypeError, mkClient chat_log 0 []) /\
  chat_postEphemeral client_api_call client_own (RawId (JStr "C1")) (JStr "hi")
    (Entity (JObj [("name", JStr "carol")])) [("as_user", JBool true)] (mkClient chat_log 0 []) =
    (inl AttributeError, mkClient chat_log 0 []).
Proof.
  assert (H : getattr (JObj [("name", JStr "carol")]) "id" = None) by reflexivity.
  split; [exact H|]. split.
  - apply (chat_postEphemeral_user_without_id client_api_call client_own
             (RawId (JStr "C1")) (JStr "hi") _ [("user", JStr "U2")] _ H). reflexivity.
  - apply (chat_postEphemeral_user_without_id client_api_call client_own
             (RawId (JStr "C1")) (JStr "hi") _ [("as_user", JBool true)] _ H). reflexivity.
Defined.

(** *** [Channel.history_after] *)

(** Whatever the transport answers, when the [while has_more:] loop of
    [history_after] returns, the [has_more] it returns is falsy, and the
    collected messages extend the ones the loop started with (nothing
    collected is ever dropped or reordered). *)
Theorem history_after_loop_result (fuel : nat) (ch : json) (messages : list json)
    (next_ts has_more inclusive : json) (c c' : client) (h : channel_history_v) :
  history_after_loop fuel ch messages next_ts has_more inclusive c = (inr h, c') ->
  truthy (hist_has_more h) = false /\ exists l, hist_messages h = messages ++ l.
Proof.
  revert messages next_ts has_more inclusive c.
  induction fuel as [|f IH]; intros messages next_ts has_more inclusive c H;
    cbn [history_after_loop] in H; [discriminate|].
  destruct (truthy has_more) eqn:Ht; cbn [negb] in H.
  - cbv [bind] in H.
    destruct (channel_history ch _ c) as [[e|resp] c1]; [discriminate|].
    unfold get_attr at 1 in H.
    destruct (getattr resp "has_more") as [hm|]; cbv [ret raise] in H; [|discriminate].
    unfold get_attr at 1 in H.
    destruct (getattr resp "messages") as [ms|]; cbv [ret raise] in H; [|discriminate].
    destruct ms as [| | | [|a r] | [|m l] | [|kv o]]; try discriminate;
      try exact (IH _ _ _ _ _ H).
    unfold get_attr in H.
    destruct (getattr (last (messages ++ rev (m :: l)) JNull) "ts") as [t|];
      cbv [ret raise] in H; [|discriminate].
    destruct (IH _ _ _ _ _ H) as [Hf [l' Hl']]. split; [exact Hf|].
    exists (rev (m :: l) ++ l'). now rewrite Hl', app_assoc.
  - cbv [ret] in H. inversion H; subst. split; [exact Ht|]. exists []. now rewrite app_nil_r.
Qed.

Lemma history_after_loop_result_witness :
  history_after_loop 10 (JObj [("id", JStr "C9")]) [] (JStr "0") (JBool true) (JNum 0)
    (mkClient history_mock 0 []) =
    (inr (mkHistory [msg "2"; msg "3"; msg "1"] (JBool false)),
     snd (history_after_loop 10 (JObj [("id", JStr "C9")]) [] (JStr "0") (JBool true)
            (JNum 0) (mkClient history_mock 0 []))) /\
  (truthy (JBool false) = false /\
   exists l, [msg "2"; msg "3"; msg "1"] = [] ++ l).
Proof.
  assert (H : history_after_loop 10 (JObj [("id", JStr "C9")]) [] (JStr "0") (JBool true) (JNum 0)
    (mkClient history_mock 0 []) =
    (inr (mkHistory [msg "2"; msg "3"; msg "1"] (JBool false)),
     snd (history_after_loop 10 (JObj [("id", JStr "C9")]) [] (JStr "0") (JBool true)
            (JNum 0) (mkClient history_mock 0 [])))) by reflexivity.
  split; [exact H|]. exact (history_after_loop_result _ _ _ _ _ _ _ _ _ H).
Defined.

(** A page with no messages leaves [next_ts] and [inclusive] as they were:
    when every response is [{messages: [], has_more: true}], the loop sends the
    same [channels.history] request again and again and never returns (here:
    it runs out of fuel, one request per iteration). *)
Theorem history_after_empty_pages
    (t : nat -> string -> option json -> list (string * json) -> exn + json)
    (ch cid : json) (fuel n : nat) (log : list (string * option json * list (string * json)))
    (messages : list json) (ts inclusive : json) :
  (forall k m f p, t k m f p = inr (JObj [("messages", JArr []); ("has_more", JBool true)])) ->
  getattr ch "id" = Some cid ->
  history_after_loop fuel ch messages ts (JBool true) inclusive (mkClient t n log) =
    (inl OutOfFuel,
     mkClient t (fuel + n)
       (log ++ repeat ("channels.history", None,
                       union_params [] [("channel", cid); ("oldest", ts);
                                        ("count", JNum 1000); ("inclusive", inclusive)])
                 fuel)).
Proof.
  intros Ht Hid. revert n log.
  induction fuel as [|f IH]; intros n log; cbn [history_after_loop].
  - now rewrite app_nil_r.
  - cbn [truthy negb]. cbv [bind]. unfold channel_history. cbv [bind].
    unfold get_attr at 1. rewrite Hid. cbv [ret]. unfold client_api_call.
    cbn [transport ncalls sent]. rewrite Ht. unfold get_attr.
    assert (E1 : getattr (JObj [("messages", JArr []); ("has_more", JBool true)]) "has_more"
                 = Some (JBool true)) by reflexivity.
    assert (E2 : getattr (JObj [("messages", JArr []); ("has_more", JBool true)]) "messages"
                 = Some (JArr [])) by reflexivity.
    rewrite E1, E2. cbv [ret]. rewrite IH. f_equal. f_equal; [lia|].
    rewrite <- app_assoc. reflexivity.
Qed.

Definition empty_page_mock (_ : nat) (_ : string) (_ : option json)
    (_ : list (string * json)) : exn + json :=
  inr (JObj [("messages", JArr []); ("has_more", JBool true)]).

Lemma history_after_empty_pages_witness :
  (forall k m f p, empty_page_mock k m f p =
     inr (JObj [("messages", JArr []); ("has_more", JBool true)])) /\
  getattr general_ch "id" = Some (JStr "C1") /\
  history_after 3 general_ch (JStr "100") (JNum 1) (mkClient empty_page_mock 0 []) =
    (inl OutOfFuel,
     mkClient empty_page_mock (3 + 0)
       ([] ++ repeat ("channels.history", None,
                      union_params [] [("channel", JStr "C1"); ("oldest", JStr "100");
                                       ("count", JNum 1000); ("inclusive", JNum 1)]) 3)).
Proof.
  assert (Ht : forall k m f p, empty_page_mock k m f p =
     inr (JObj [("messages", JArr []); ("has_more", JBool true)])) by reflexivity.
  split; [exact Ht|]. split; [reflexivity|].
  exact (history_after_empty_pages empty_page_mock general_ch (JStr "C1") 3 0 [] []
           (JStr "100") (JNum 1) Ht eq_refl).
Defined.

(** *** [Emoji] aliases *)

Lemma take_line_no_newline (s : string) :
  ~ In "010"%char (list_ascii_of_string s) -> take_line s = s.
Proof.
  induction s as [|a r IH]; cbn [take_line list_ascii_of_string In]; intros H; [reflexivity|].
  destruct (Ascii.eqb a "010"%char) eqn:E.
  - apply Ascii.eqb_eq in E. exfalso. apply H. now left.
  - rewrite IH; [reflexivity|]. intros Hin. apply H. now right.
Qed.

Lemma substring_0_length (s : string) : substring 0 (String.length s) s = s.
Proof. induction s as [|a r IH]; cbn; [reflexivity|]. now rewrite IH. Qed.

Lemma prefix_app (p t : string) : String.prefix p (p ++ t) = true.
Proof.
  induction p as [|a r IH]; cbn; [now destruct t|].
  destruct (ascii_dec a a); [exact IH | congruence].
Qed.

Lemma alias_target_alias (b : string) :
  b <> EmptyString -> ~ In "010"%char (list_ascii_of_string b) ->
  String.prefix "alias:" ("alias:" ++ b)%string = true /\ alias_target ("alias:" ++ b)%string = Some b.
Proof.
  intros Hb Hnl. split; [apply prefix_app|]. unfold alias_target. rewrite prefix_app.
  cbn. rewrite Nat.sub_0_r, substring_0_length, take_line_no_newline by exact Hnl.
  destruct b; [congruence | reflexivity].
Qed.

Lemma emoji_init_mono (f f' : nat) (parent : list (string * string))
    (name image : string) (e : emoji) :
  f <= f' -> emoji_init f parent name image = inr e -> emoji_init f' parent name image = inr e.
Proof.
  revert f' name image e.
  induction f as [|f IH]; intros f' name image e Hle H.
  - destruct f' as [|f']; [exact H|]. cbn [emoji_init] in H |- *.
    destruct (negb (String.prefix "alias:" image)); [exact H|].
    destruct (alias_target image); [|exact H].
    destruct (assoc s parent); [discriminate | exact H].
  - destruct f' as [|f']; [lia|]. cbn [emoji_init] in H |- *.
    destruct (negb (String.prefix "alias:" image)); [exact H|].
    destruct (alias_target image) as [t|]; [|exact H].
    destruct (assoc t parent) as [img|]; [|exact H].
    destruct (emoji_init f parent t img) as [err|e'] eqn:E; [discriminate|].
    rewrite (IH f' t img e' ltac:(lia) E). exact H.
Qed.

(** Two entries that alias each other ([a] is ["alias:b"], [b] is
    ["alias:a"], possibly [a] = [b]) make [Emojies.__getitem__] of either
    raise [RecursionError]: [_init_alias] keeps building the other entry. *)
Theorem emoji_alias_cycle (parent : list (string * string)) (a b : string) :
  a <> EmptyString -> b <> EmptyString ->
  ~ In "010"%char (list_ascii_of_string a) -> ~ In "010"%char (list_ascii_of_string b) ->
  assoc a parent = Some ("alias:" ++ b)%string -> assoc b parent = Some ("alias:" ++ a)%string ->
  emojies_getitem parent a = inl RecursionError /\
  emojies_getitem parent b = inl RecursionError.
Proof.
  intros Ha Hb Hna Hnb Hpa Hpb.
  destruct (alias_target_alias a Ha Hna) as [Pa Ta].
  destruct (alias_target_alias b Hb Hnb) as [Pb Tb].
  assert (L : forall f, emoji_init f parent a ("alias:" ++ b)%string = inl RecursionError /\
                        emoji_init f parent b ("alias:" ++ a)%string = inl RecursionError).
  { induction f as [|f [IHa IHb]]; cbn [emoji_init];
      rewrite Pa, Pb, Ta, Tb, Hpa, Hpb; cbn [negb]; [split; reflexivity|].
    rewrite IHa, IHb. split; reflexivity. }
  unfold emojies_getitem. rewrite Hpa, Hpb. split; apply L.
Qed.

Lemma emoji_alias_cycle_witness :
  ("a" <> EmptyString /\ "b" <> EmptyString /\
   ~ In "010"%char (list_ascii_of_string "a") /\ ~ In "010"%char (list_ascii_of_string "b") /\
   assoc "a" [("a", "alias:b"); ("b", "alias:a")] = Some ("alias:" ++ "b")%string /\
   assoc "b" [("a", "alias:b"); ("b", "alias:a")] = Some ("alias:" ++ "a")%string) /\
  (emojies_getitem [("a", "alias:b"); ("b", "alias:a")] "a" = inl RecursionError /\
   emojies_getitem [("a", "alias:b"); ("b", "alias:a")] "b" = inl RecursionError).
Proof.
  assert (Ha : "a" <> EmptyString) by discriminate.
  assert (Hb : "b" <> EmptyString) by discriminate.
  assert (Hna : ~ In "010"%char (list_ascii_of_string "a")) by (cbn; intuition discriminate).
  assert (Hnb : ~ In "010"%char (list_ascii_of_string "b")) by (cbn; intuition discriminate).
  split; [repeat split; assumption || reflexivity|].
  exact (emoji_alias_cycle [("a", "alias:b"); ("b", "alias:a")] "a" "b" Ha Hb Hna Hnb
           eq_refl eq_refl).
Defined.

(** An alias that [Emojies.__getitem__] builds has type "alias"; its
    [image_url] is [None] when the target name is not in the mapping, and
    otherwise the [image_url] of the target entry as [__getitem__] builds it
    on its own. *)
Theorem emoji_alias_image_url (parent : list (string * string)) (name img t : string)
    (e : emoji) :
  assoc name parent = Some img -> alias_target img = Some t ->
  emojies_getitem parent name = inr e ->
  emoji_type e = "alias" /\
  (assoc t parent = None -> image_url e = None) /\
  (forall timg, assoc t parent = Some timg ->
     exists e', emojies_getitem parent t = inr e' /\ image_url e = image_url e').
Proof.
  intros Hn Ht H. unfold emojies_getitem in H. rewrite Hn in H.
  assert (Hp : String.prefix "alias:" img = true).
  { unfold alias_target in Ht. destruct (String.prefix "alias:" img); [reflexivity|discriminate]. }
  destruct (length parent) as [|k] eqn:Hlen; cbn [emoji_init] in H;
    rewrite Hp, Ht in H; cbn [negb] in H.
  - destruct (assoc t parent) as [timg|] eqn:Ha; [discriminate|].
    injection H as <-. split; [reflexivity|]. split; [reflexivity|].
    intros timg E. discriminate.
  - destruct (assoc t parent) as [timg|] eqn:Ha.
    + destruct (emoji_init k parent t timg) as [err|e'] eqn:E; [discriminate|].
      injection H as <-. split; [reflexivity|]. split; [discriminate|].
      intros timg' E'. injection E' as <-. exists e'. split; [|reflexivity].
      unfold emojies_getitem. rewrite Ha, Hlen.
      exact (emoji_init_mono k (S k) parent t timg e' ltac:(lia) E).
    + injection H as <-. split; [reflexivity|]. split; [reflexivity|].
      intros timg E. discriminate.
Qed.

Lemma emoji_alias_image_url_witness :
  (assoc "grin" [("smile", "https://x/smile.png"); ("grin", "alias:smile")] = Some "alias:smile" /\
   alias_target "alias:smile" = Some "smile" /\
   emojies_getitem [("smile", "https://x/smile.png"); ("grin", "alias:smile")] "grin" =
     inr (mkEmoji "grin" "alias:smile" "alias" (Some "https://x/smile.png"))) /\
  (emoji_type (mkEmoji "grin" "alias:smile" "alias" (Some "https://x/smile.png")) = "alias" /\
   (assoc "smile" [("smile", "https://x/smile.png"); ("grin", "alias:smile")] = None ->
      image_url (mkEmoji "grin" "alias:smile" "alias" (Some "https://x/smile.png")) = None) /\
   (forall timg, assoc "smile" [("smile", "https://x/smile.png"); ("grin", "alias:smile")] = Some timg ->
      exists e', emojies_getitem [("smile", "https://x/smile.png"); ("grin", "alias:smile")] "smile" = inr e' /\
        image_url (mkEmoji "grin" "alias:smile" "alias" (Some "https://x/smile.png")) = image_url e')).
Proof.
  assert (H1 : assoc "grin" [("smile", "https://x/smile.png"); ("grin", "alias:smile")] = Some "alias:smile")
    by reflexivity.
  assert (H2 : alias_target "alias:smile" = Some "smile") by reflexivity.
  assert (H3 : emojies_getitem [("smile", "https://x/smile.png"); ("grin", "alias:smile")] "grin" =
     inr (mkEmoji "grin" "alias:smile" "alias" (Some "https://x/smile.png"))) by reflexivity.
  split; [split; [|split]; assumption|].
  exact (emoji_alias_image_url _ _ _ _ _ H1 H2 H3).
Defined.

(** *** [ChannelApi.list] and [UserApi.list] *)



